(** * traveldays: the day-accounting engine of [streamlit_app.py]

    A shallow embedding of the computational part of the script: the
    per-range validation loop, the annual clip, the longest single stay and
    the rolling 365-day maximum (day expansion, [sorted(set(...))] and the
    two-pointer scan), followed by the properties of the specification.

    A [datetime.date] is represented by its proleptic Gregorian ordinal
    ([date.toordinal()]): comparison of dates is comparison of ordinals,
    [(e - s).days] is the difference of ordinals and [s + timedelta(days=d)]
    is addition.  Python integers are unbounded, hence [Z]. *)

From Stdlib Require Import ZArith List Bool Lia Permutation Sorted.
Import ListNotations.
Open Scope Z_scope.

(** ** Calendar dates *)

Module Calendar.

Definition date := Z.

(** [datetime._is_leap] *)
Definition is_leap (year : Z) : bool :=
  (year mod 4 =? 0) && (negb (year mod 100 =? 0) || (year mod 400 =? 0)).

(** [datetime._days_before_year] *)
Definition days_before_year (year : Z) : Z :=
  let y := year - 1 in
  y * 365 + y / 4 - y / 100 + y / 400.

(** [datetime._DAYS_BEFORE_MONTH], months 1..12 *)
Definition DAYS_BEFORE_MONTH : list Z :=
  [0; 31; 59; 90; 120; 151; 181; 212; 243; 273; 304; 334].

(** [datetime._days_before_month] *)
Definition days_before_month (year month : Z) : Z :=
  nth (Z.to_nat (month - 1)) DAYS_BEFORE_MONTH 0
  + (if (2 <? month) && is_leap year then 1 else 0).

(** [date(year, month, day)], as [datetime._ymd2ord] *)
Definition mkdate (year month day : Z) : date :=
  days_before_year year + days_before_month year month + day.

End Calendar.

Import Calendar.

(** ** The engine *)

(** One row of [trip_data]: the range label [i + 1], the original range, the
    stay length and the days inside the target year. *)
Record row := mkRow {
  Range : Z;
  Original_Stay : date * date;
  Stay_Length : Z;
  Days_in_year : Z
}.

(** The variables the first loop updates, with the indices of the ranges
    for which [st.error] was emitted. *)
Record loop_state := mkState {
  trip_data : list row;
  valid_intervals : list (date * date);
  longest_single_stay : Z;
  range_errors : list Z
}.

Definition init_state : loop_state := mkState [] [] 0 [].

Definition year_start (target_year : Z) : date := mkdate target_year 1 1.
Definition year_end (target_year : Z) : date := mkdate target_year 12 31.

(** The body of [for i in range(int(num_trips))], lines 60-91, with the two
    dates read from the widgets passed as [(start, end)]. *)
Definition loop_body (target_year : Z) (st : loop_state) (i : Z)
    (r : date * date) : loop_state :=
  let '(start, end_) := r in
  if end_ <? start then
    let days_in_year := 0 in
    let stay_length := 0 in
    mkState (trip_data st ++ [mkRow (i + 1) r stay_length days_in_year])
            (valid_intervals st)
            (longest_single_stay st)
            (range_errors st ++ [i + 1])
  else
    let stay_length := (end_ - start) + 1 in
    let longest := Z.max (longest_single_stay st) stay_length in
    let valid := valid_intervals st ++ [(start, end_)] in
    let effective_start := Z.max start (year_start target_year) in
    let effective_end := Z.min end_ (year_end target_year) in
    let days_in_year :=
      if effective_start >? effective_end then 0
      else (effective_end - effective_start) + 1 in
    mkState (trip_data st ++ [mkRow (i + 1) r stay_length days_in_year])
            valid longest (range_errors st).

(** The loop itself: [i] counts from [i0]. *)
Fixpoint run_loop (target_year : Z) (st : loop_state) (i : Z)
    (ranges : list (date * date)) : loop_state :=
  match ranges with
  | [] => st
  | r :: rest => run_loop target_year (loop_body target_year st i r) (i + 1) rest
  end.

(** [sum(row[...] for row in trip_data)], line 99 *)
Definition sum (l : list Z) : Z := fold_left Z.add l 0.

Definition total_days (rows : list row) : Z := sum (map Days_in_year rows).

(** *** Rolling window *)

(** [for d in range(delta + 1): all_days.append(s + timedelta(days=d))] *)
Fixpoint expand_from (s : date) (d : Z) (count : nat) : list date :=
  match count with
  | O => []
  | S c => (s + d) :: expand_from s (d + 1) c
  end.

Definition expand (r : date * date) : list date :=
  let '(s, e) := r in
  let delta := e - s in
  expand_from s 0 (Z.to_nat (delta + 1)).

(** Lines 150-154 *)
Definition collect_days (intervals : list (date * date)) : list date :=
  flat_map expand intervals.

(** [set(...)]: one occurrence of each element is kept. *)
Definition set (l : list date) : list date := nodup Z.eq_dec l.

(** [sorted(...)]: a stable sort by ascending order. *)
Fixpoint insert (x : date) (l : list date) : list date :=
  match l with
  | [] => [x]
  | y :: t => if x <=? y then x :: y :: t else y :: insert x t
  end.

Definition sorted (l : list date) : list date := fold_right insert [] l.

(** [all_days[k]]; the scan only reads positions below [len(all_days)]. *)
Definition at_ (all_days : list date) (k : nat) : date := nth k all_days 0.

(** The inner [while j < n and all_days[j] - all_days[i] <= 364 days]; the
    loop runs at most [n - j] times, which is what [fuel] counts. *)
Fixpoint inner_while (all_days : list date) (i j : nat) (fuel : nat) : nat :=
  match fuel with
  | O => j
  | S f =>
      if (j <? length all_days)%nat && (at_ all_days j - at_ all_days i <=? 364)
      then inner_while all_days i (S j) f
      else j
  end.

Record scan_state := mkScan {
  sc_i : nat;
  sc_j : nat;
  max_days_365 : Z;
  max_i : nat;
  max_j : nat
}.

(** One turn of the outer [while i < n], lines 167-174. *)
Definition outer_body (all_days : list date) (s : scan_state) : scan_state :=
  let i := sc_i s in
  let j := inner_while all_days i (sc_j s) (length all_days - sc_j s) in
  let window_size := Z.of_nat j - Z.of_nat i in
  if window_size >? max_days_365 s
  then mkScan (S i) j window_size i (j - 1)
  else mkScan (S i) j (max_days_365 s) (max_i s) (max_j s).

(** The outer loop; it runs [n - i] times. *)
Fixpoint outer_while (all_days : list date) (s : scan_state) (fuel : nat)
    : scan_state :=
  match fuel with
  | O => s
  | S f =>
      if (sc_i s <? length all_days)%nat
      then outer_while all_days (outer_body all_days s) f
      else s
  end.

Record rolling := mkRolling {
  maxDays : Z;
  windowStart : option date;
  windowEnd : option date
}.

(** Lines 159-177 on the sorted, duplicate-free [all_days]. *)
Definition scan (all_days : list date) : scan_state :=
  outer_while all_days (mkScan 0 0 0 0 0) (length all_days).

(** Lines 144-177 *)
Definition rolling_window (intervals : list (date * date)) : rolling :=
  match intervals with
  | [] => mkRolling 0 None None
  | _ =>
      let all_days := sorted (set (collect_days intervals)) in
      match all_days with
      | [] => mkRolling 0 None None
      | _ =>
          let s := scan all_days in
          mkRolling (max_days_365 s)
                    (Some (at_ all_days (max_i s)))
                    (Some (at_ all_days (max_j s)))
      end
  end.

(** The outputs the presentation layer consumes. *)
Record analysis := mkAnalysis {
  perRange : list row;
  errors : list Z;
  totalDaysInYear : Z;
  longestSingleStay : Z;
  rollingWindow : rolling
}.

Definition computeStayAnalysis (ranges : list (date * date)) (target_year : Z)
    : analysis :=
  let st := run_loop target_year init_state 0 ranges in
  mkAnalysis (trip_data st) (range_errors st)
             (total_days (trip_data st))
             (longest_single_stay st)
             (rolling_window (valid_intervals st)).

(** ** Definitions used to state the properties *)

(** The test of line 60, negated: the range is kept. *)
Definition is_valid (r : date * date) : bool := negb (snd r <? fst r).

(** The inclusive length of a stay. *)
Definition stay_length_of (r : date * date) : Z := (snd r - fst r) + 1.

(** The annual clip in the words of the specification: clamp to the year,
    count inclusively, nothing when the clamp is empty. *)
Definition annual_contribution (target_year : Z) (start end_ : date) : Z :=
  let effectiveStart := Z.max start (mkdate target_year 1 1) in
  let effectiveEnd := Z.min end_ (mkdate target_year 12 31) in
  if effectiveStart >? effectiveEnd then 0
  else effectiveEnd - effectiveStart + 1.

(** The row the loop body appends for range [r] at position [i]. *)
Definition row_of (target_year : Z) (i : Z) (r : date * date) : row :=
  if is_valid r
  then mkRow (i + 1) r (stay_length_of r)
             (annual_contribution target_year (fst r) (snd r))
  else mkRow (i + 1) r 0 0.

(** The rows appended for [ranges], the first of them at position [i]. *)
Fixpoint rows_from (target_year : Z) (i : Z) (ranges : list (date * date))
    : list row :=
  match ranges with
  | [] => []
  | r :: rest => row_of target_year i r :: rows_from target_year (i + 1) rest
  end.

(** The labels passed to [st.error] for [ranges], counting from [i]. *)
Fixpoint errors_from (i : Z) (ranges : list (date * date)) : list Z :=
  match ranges with
  | [] => []
  | r :: rest =>
      if is_valid r then errors_from (i + 1) rest
      else (i + 1) :: errors_from (i + 1) rest
  end.

(** The annual days of a range, valid or not. *)
Definition days_of (target_year : Z) (r : date * date) : Z :=
  if is_valid r then annual_contribution target_year (fst r) (snd r) else 0.

(** The longest stay as a maximum with floor 0. *)
Definition longest_of (l : list Z) : Z := fold_right Z.max 0 l.

(** Ascending with no two equal entries. *)
Definition StrictlySorted (l : list date) : Prop := StronglySorted Z.lt l.

(** A day is covered when a valid interval of the list contains it. *)
Definition covered (intervals : list (date * date)) (d : date) : Prop :=
  exists s e, In (s, e) intervals /\ s <= d <= e.

(** The sequence [D] of the rolling-window computation. *)
Definition covered_days (intervals : list (date * date)) : list date :=
  sorted (set (collect_days intervals)).

(** [lo <= x <= hi] *)
Definition in_span (lo hi : date) (x : date) : bool := (lo <=? x) && (x <=? hi).

(** The number of days of [D] between [lo] and [hi], both included. *)
Definition count_in (D : list date) (lo hi : date) : Z :=
  Z.of_nat (length (filter (in_span lo hi) D)).

(** All pairs [(i, j)] with [0 <= i <= j < n]. *)
Definition pairs (n : nat) : list (nat * nat) :=
  flat_map (fun i => map (pair i) (seq i (n - i))) (seq 0 n).

(** [D[j] - D[i] <= 364] for the pair [(i, j)]. *)
Definition within_span (D : list date) (p : nat * nat) : bool :=
  at_ D (snd p) - at_ D (fst p) <=? 364.

(** [j - i + 1] *)
Definition width (p : nat * nat) : Z := Z.of_nat (snd p) - Z.of_nat (fst p) + 1.

(** The maximum [j - i + 1] over the pairs with [D[j] - D[i] <= 364], and 0
    when there is no pair. *)
Definition reference_maxDays (D : list date) : Z :=
  fold_right Z.max 0 (map width (filter (within_span D) (pairs (length D)))).

(** Lines 158-177: the result as a function of the sorted day list. *)
Definition rolling_of_days (D : list date) : rolling :=
  match D with
  | [] => mkRolling 0 None None
  | _ => mkRolling (max_days_365 (scan D))
                   (Some (at_ D (max_i (scan D))))
                   (Some (at_ D (max_j (scan D))))
  end.

(** What holds each time the outer loop tests [i < length D]. *)
Record scan_inv (D : list date) (s : scan_state) : Prop := {
  inv_le : (sc_i s <= sc_j s <= length D)%nat \/ (length D <= sc_i s)%nat;
  inv_jn : (sc_j s <= length D)%nat;
  inv_in : forall k, (sc_i s <= k < sc_j s)%nat ->
                     at_ D k - at_ D (sc_i s) <= 364;
  inv_nonneg : 0 <= max_days_365 s;
  inv_upper : forall a b, (a < sc_i s)%nat -> (a <= b < length D)%nat ->
                at_ D b - at_ D a <= 364 ->
                Z.of_nat b - Z.of_nat a + 1 <= max_days_365 s;
  inv_best :
    (sc_i s = 0%nat /\ max_days_365 s = 0 /\ max_i s = 0%nat /\ max_j s = 0%nat)
    \/ ((max_i s <= max_j s < length D)%nat /\ (max_i s < sc_i s)%nat
        /\ at_ D (max_j s) - at_ D (max_i s) <= 364
        /\ max_days_365 s = Z.of_nat (max_j s) - Z.of_nat (max_i s) + 1);
  inv_first : forall a b, (a < max_i s)%nat -> (a <= b < length D)%nat ->
                at_ D b - at_ D a <= 364 ->
                Z.of_nat b - Z.of_nat a + 1 < max_days_365 s
}.

(** ** Covered days, read off the input ranges *)

(** Day [d] lies in some input range [start .. end]; a range with
    [end < start] contains no day. *)
Definition is_covered (ranges : list (date * date)) (d : date) : bool :=
  existsb (fun r => (fst r <=? d) && (d <=? snd r)) ranges.

(** The calendar days [lo], [lo + 1], ..., [hi]. *)
Definition days_between (lo hi : date) : list date :=
  map (fun k => lo + Z.of_nat k) (seq 0 (Z.to_nat (hi - lo + 1))).

(** The number of calendar days from [lo] to [hi] that lie in some input
    range, each day counted once. *)
Definition covered_count (ranges : list (date * date)) (lo hi : date) : Z :=
  Z.of_nat (length (filter (is_covered ranges) (days_between lo hi))).

(** ** The notices of the page *)

(** [st.error], [st.success] and [st.info]. *)
Inductive notice := st_error | st_success | st_info.

(** Lines 122-129: the optional annual limit; nothing is shown when the
    box is not ticked. *)
Definition annual_threshold_check (limit_enable : bool) (limit_days : Z)
    (total : Z) : option notice :=
  if limit_enable then
    if total >? limit_days then Some st_error else Some st_success
  else None.

(** What lines 148-208 put on the page. *)
Inductive rolling_section :=
| NoValidRanges
| NoValidDates
| RollingResult (max_days : Z) (window_start window_end : date)
                (custom_limit : option notice).

(** Lines 144-208, with the two widgets of lines 194-196 as arguments. *)
Definition rolling_section_of (intervals : list (date * date))
    (rolling_limit_enable : bool) (rolling_limit_days : Z) : rolling_section :=
  match intervals with
  | [] => NoValidRanges
  | _ =>
      let all_days := sorted (set (collect_days intervals)) in
      match all_days with
      | [] => NoValidDates
      | _ =>
          let s := scan all_days in
          RollingResult (max_days_365 s)
            (at_ all_days (max_i s)) (at_ all_days (max_j s))
            (if rolling_limit_enable then
               if max_days_365 s >? rolling_limit_days
               then Some st_error else Some st_success
             else None)
      end
  end.

(** The notice of the custom rolling limit, when the section shows one. *)
Definition custom_limit_notice (shown : rolling_section) : option notice :=
  match shown with
  | RollingResult _ _ _ c => c
  | _ => None
  end.

(** Lines 226-233: the 90-day rule on the longest single stay. *)
Definition short_stay_rule (longest : Z) : notice :=
  if longest =? 0 then st_info
  else if longest >? 90 then st_error else st_success.

(** Lines 236-243: the 180-day rule on the rolling maximum. *)
Definition rolling_rule (max_days : Z) : notice :=
  if max_days =? 0 then st_info
  else if max_days >? 180 then st_error else st_success.

(** Two intervals with no day in common. *)
Definition apart (r1 r2 : date * date) : Prop :=
  snd r1 < fst r2 \/ snd r2 < fst r1.

(** The years [Y], [Y + 1], ..., [count] of them. *)
Fixpoint years_from (Y : Z) (count : nat) : list Z :=
  match count with
  | O => []
  | S c => Y :: years_from (Y + 1) c
  end.

(** ** The first loop, range by range *)

Lemma loop_body_unfold Y st i r :
  loop_body Y st i r =
  mkState (trip_data st ++ [row_of Y i r])
          (valid_intervals st ++ (if is_valid r then [r] else []))
          (if is_valid r then Z.max (longest_single_stay st) (stay_length_of r)
           else longest_single_stay st)
          (range_errors st ++ (if is_valid r then [] else [i + 1])).
Proof.
  destruct r as [s e]. unfold loop_body, row_of, is_valid, stay_length_of,
    annual_contribution, year_start, year_end. simpl fst; simpl snd.
  destruct (e <? s) eqn:E; simpl.
  - now rewrite !app_nil_r.
  - now rewrite app_nil_r.
Qed.

Lemma run_loop_unfold Y ranges : forall st i,
  run_loop Y st i ranges =
  mkState (trip_data st ++ rows_from Y i ranges)
          (valid_intervals st ++ filter is_valid ranges)
          (fold_left Z.max (map stay_length_of (filter is_valid ranges))
                     (longest_single_stay st))
          (range_errors st ++ errors_from i ranges).
Proof.
  induction ranges as [|r rest IH]; intros st i; simpl.
  - rewrite !app_nil_r. now destruct st.
  - rewrite IH, loop_body_unfold. simpl.
    destruct (is_valid r); simpl; rewrite <- ?app_assoc, ?app_nil_r; reflexivity.
Qed.

Lemma fold_add_shift l : forall a, fold_left Z.add l a = a + fold_left Z.add l 0.
Proof.
  induction l as [|x l IH]; intros a; simpl; [lia|].
  rewrite (IH (a + x)), (IH x). lia.
Qed.

Lemma sum_cons x l : sum (x :: l) = x + sum l.
Proof. unfold sum. simpl. rewrite fold_add_shift. lia. Qed.

Lemma sum_app l1 l2 : sum (l1 ++ l2) = sum l1 + sum l2.
Proof.
  induction l1 as [|x l1 IH]; simpl; [reflexivity|].
  rewrite !sum_cons, IH. lia.
Qed.

Lemma longest_of_nonneg l : 0 <= longest_of l.
Proof. unfold longest_of. induction l; simpl; lia. Qed.

Lemma fold_left_max l : forall a,
  fold_left Z.max l a = Z.max a (fold_left Z.max l 0) \/ a < 0.
Proof.
  induction l as [|x l IH]; intros a; simpl; [lia|].
  destruct (IH (Z.max a x)) as [E|E]; [|lia].
  destruct (IH (Z.max 0 x)) as [F|F]; [|lia].
  rewrite E, F. lia.
Qed.

Lemma longest_fold l : fold_left Z.max l 0 = longest_of l.
Proof.
  unfold longest_of. induction l as [|x l IH]; simpl; [reflexivity|].
  destruct (fold_left_max l (Z.max 0 x)) as [E|E]; [|lia].
  rewrite E, IH. pose proof (longest_of_nonneg l). unfold longest_of in *. lia.
Qed.

Lemma analysis_unfold ranges Y :
  computeStayAnalysis ranges Y =
  mkAnalysis (rows_from Y 0 ranges) (errors_from 0 ranges)
             (total_days (rows_from Y 0 ranges))
             (longest_of (map stay_length_of (filter is_valid ranges)))
             (rolling_window (filter is_valid ranges)).
Proof.
  unfold computeStayAnalysis. rewrite run_loop_unfold. simpl.
  now rewrite longest_fold.
Qed.

(** ** [sorted(set(all_days))] *)

Lemma In_insert x y l : In y (insert x l) <-> y = x \/ In y l.
Proof.
  induction l as [|z l IH]; simpl.
  - intuition congruence.
  - destruct (x <=? z); simpl; rewrite ?IH; intuition congruence.
Qed.

Lemma In_sorted x l : In x (sorted l) <-> In x l.
Proof.
  unfold sorted. induction l as [|y l IH]; simpl; [tauto|].
  rewrite In_insert, IH. intuition congruence.
Qed.

Lemma In_set x l : In x (set l) <-> In x l.
Proof. unfold set. apply nodup_In. Qed.

Lemma insert_strict x l :
  StrictlySorted l -> ~ In x l -> StrictlySorted (insert x l).
Proof.
  unfold StrictlySorted.
  induction l as [|y l IH]; intros Hs Hn; simpl.
  - constructor; constructor.
  - inversion Hs as [|? ? Hl Hy]; subst.
    destruct (x <=? y) eqn:E.
    + apply Z.leb_le in E.
      assert (x < y) by (simpl in Hn; lia).
      constructor; [assumption|].
      constructor; [assumption|].
      eapply Forall_impl; [|exact Hy]. simpl. intros; lia.
    + apply Z.leb_gt in E.
      constructor.
      * apply IH; [assumption|]. simpl in Hn. tauto.
      * apply Forall_forall. intros z Hz. apply In_insert in Hz.
        destruct Hz as [->|Hz]; [assumption|].
        rewrite Forall_forall in Hy. now apply Hy.
Qed.

Lemma sorted_strict l : NoDup l -> StrictlySorted (sorted l).
Proof.
  induction 1 as [|x l Hx Hl IH]; simpl.
  - constructor.
  - apply insert_strict; [assumption|]. now rewrite In_sorted.
Qed.

Lemma sorted_set_strict l : StrictlySorted (sorted (set l)).
Proof. apply sorted_strict. apply NoDup_nodup. Qed.

Lemma In_sorted_set x l : In x (sorted (set l)) <-> In x l.
Proof. now rewrite In_sorted, In_set. Qed.

(** A strictly ascending list is determined by its elements. *)
Lemma strictly_sorted_ext l1 : forall l2,
  StrictlySorted l1 -> StrictlySorted l2 ->
  (forall x, In x l1 <-> In x l2) -> l1 = l2.
Proof.
  unfold StrictlySorted.
  induction l1 as [|a l1 IH]; intros [|b l2] H1 H2 Hin.
  - reflexivity.
  - exfalso. apply (Hin b). now left.
  - exfalso. apply (Hin a). now left.
  - inversion H1 as [|? ? S1 F1]; inversion H2 as [|? ? S2 F2]; subst.
    rewrite Forall_forall in F1, F2.
    assert (a = b).
    { destruct (proj1 (Hin a) (or_introl eq_refl)) as [E|E]; [congruence|].
      destruct (proj2 (Hin b) (or_introl eq_refl)) as [G|G]; [congruence|].
      specialize (F1 _ G). specialize (F2 _ E). lia. }
    subst b. f_equal. apply IH; try assumption.
    intros x. split; intros Hx.
    + destruct (proj1 (Hin x) (or_intror Hx)) as [E|E]; [|assumption].
      subst x. specialize (F1 _ Hx). lia.
    + destruct (proj2 (Hin x) (or_intror Hx)) as [E|E]; [|assumption].
      subst x. specialize (F2 _ Hx). lia.
Qed.

Lemma sorted_set_ext l1 l2 :
  (forall x, In x l1 <-> In x l2) -> sorted (set l1) = sorted (set l2).
Proof.
  intros H. apply strictly_sorted_ext; try apply sorted_set_strict.
  intros x. rewrite !In_sorted_set. apply H.
Qed.

Lemma strictly_sorted_NoDup l : StrictlySorted l -> NoDup l.
Proof.
  induction 1 as [|a l Hs IH Hf]; constructor; [|assumption].
  intros Hin. rewrite Forall_forall in Hf. specialize (Hf _ Hin). lia.
Qed.

Lemma strictly_sorted_at l : StrictlySorted l ->
  forall a b, (a < b)%nat -> (b < length l)%nat -> at_ l a < at_ l b.
Proof.
  unfold at_. induction 1 as [|x l Hs IH Hf]; intros a b Hab Hb; simpl in *.
  - lia.
  - destruct b as [|b]; [lia|]. destruct a as [|a].
    + rewrite Forall_forall in Hf. apply Hf. apply nth_In. lia.
    + apply IH; lia.
Qed.

(** ** The expansion into days *)

Lemma In_expand_from s : forall count d x,
  In x (expand_from s d count) <-> s + d <= x < s + d + Z.of_nat count.
Proof.
  induction count as [|c IH]; intros d x; simpl expand_from.
  - simpl. lia.
  - simpl In. rewrite IH. lia.
Qed.

Lemma In_expand s e x : In x (expand (s, e)) <-> s <= x <= e.
Proof.
  unfold expand. rewrite In_expand_from. lia.
Qed.

Lemma In_collect_days intervals d :
  In d (collect_days intervals) <-> covered intervals d.
Proof.
  unfold collect_days, covered. rewrite in_flat_map. split.
  - intros [[s e] [Hin Hx]]. apply In_expand in Hx. eauto.
  - intros (s & e & Hin & Hx). exists (s, e). split; [assumption|].
    now apply In_expand.
Qed.

Lemma In_covered_days intervals d :
  In d (covered_days intervals) <-> covered intervals d.
Proof. unfold covered_days. now rewrite In_sorted_set, In_collect_days. Qed.

Lemma covered_days_ext l1 l2 :
  (forall d, covered l1 d <-> covered l2 d) -> covered_days l1 = covered_days l2.
Proof.
  intros H. apply sorted_set_ext. intros x. rewrite !In_collect_days. apply H.
Qed.

(** ** The two-pointer scan *)

(** [i] grows by one at each turn, so the outer loop leaves with its test
    false: the fuel [n - i] is never what stops it. *)
Lemma outer_while_exits D : forall fuel s,
  (length D - sc_i s <= fuel)%nat ->
  (length D <= sc_i (outer_while D s fuel))%nat.
Proof.
  induction fuel as [|f IH]; intros s Hf; simpl; [lia|].
  destruct (sc_i s <? length D)%nat eqn:E.
  - apply IH. unfold outer_body. destruct (_ >? _); simpl; lia.
  - now apply Nat.ltb_ge in E.
Qed.

Section Scan.

Variable D : list date.
Hypothesis D_sorted : StrictlySorted D.

Lemma at_mono a b : (a <= b)%nat -> (b < length D)%nat -> at_ D a <= at_ D b.
Proof.
  intros Hab Hb. destruct (Nat.eq_dec a b) as [->|Hne]; [lia|].
  pose proof (strictly_sorted_at D D_sorted a b). lia.
Qed.

(** The inner loop stops at the first position at or after [j] that is
    the end of the list or lies more than 364 days after [D[i]]. *)
Lemma inner_while_spec i : forall fuel j,
  (j <= length D)%nat -> (length D - j <= fuel)%nat ->
  let j' := inner_while D i j fuel in
  (j <= j' <= length D)%nat
  /\ (forall k, (j <= k < j')%nat -> at_ D k - at_ D i <= 364)
  /\ (j' = length D \/ 364 < at_ D j' - at_ D i).
Proof.
  induction fuel as [|f IH]; intros j Hj Hf; simpl.
  - repeat split; lia.
  - destruct (j <? length D)%nat eqn:E1; simpl.
    + destruct (at_ D j - at_ D i <=? 364) eqn:E2.
      * apply Nat.ltb_lt in E1. apply Z.leb_le in E2.
        destruct (IH (S j) ltac:(lia) ltac:(lia)) as (A & B & C).
        split; [lia|]. split; [|exact C].
        intros k Hk. destruct (Nat.eq_dec k j) as [->|]; [assumption|].
        apply B. lia.
      * apply Nat.ltb_lt in E1. apply Z.leb_gt in E2.
        repeat split; try lia.
    + apply Nat.ltb_ge in E1. repeat split; try lia.
Qed.

Lemma scan_inv_init : scan_inv D (mkScan 0 0 0 0 0).
Proof. constructor; simpl; lia. Qed.

Lemma outer_body_i s : sc_i (outer_body D s) = S (sc_i s).
Proof. unfold outer_body. now destruct (_ >? _). Qed.

Lemma scan_inv_step s :
  scan_inv D s -> (sc_i s < length D)%nat -> scan_inv D (outer_body D s).
Proof.
  intros [Hle Hjn Hin Hnn Hup Hbest Hfirst] Hi.
  assert (Hij : (sc_i s <= sc_j s)%nat) by lia.
  destruct (inner_while_spec (sc_i s) (length D - sc_j s) (sc_j s) Hjn (Nat.le_refl _))
    as (A & B & C).
  unfold outer_body.
  set (i := sc_i s) in *.
  set (j' := inner_while D i (sc_j s) (length D - sc_j s)) in *.
  assert (Hwin : forall k, (i <= k < j')%nat -> at_ D k - at_ D i <= 364).
  { intros k Hk. destruct (Nat.lt_ge_cases k (sc_j s)); [apply Hin|apply B]; lia. }
  assert (Hadv : (i < j')%nat).
  { destruct (Nat.eq_dec j' i) as [E|]; [|lia].
    destruct C as [C|C]; [lia|]. rewrite E in C. lia. }
  assert (Hall : forall b, (i <= b < length D)%nat -> at_ D b - at_ D i <= 364 ->
                           (b < j')%nat).
  { intros b Hb Hd. destruct (Nat.lt_ge_cases b j') as [|Hge]; [assumption|].
    exfalso. destruct C as [C|C]; [lia|].
    pose proof (at_mono j' b Hge ltac:(lia)). lia. }
  assert (Hnext : forall k, (S i <= k < j')%nat -> at_ D k - at_ D (S i) <= 364).
  { intros k Hk. pose proof (Hwin k ltac:(lia)).
    pose proof (at_mono i (S i) ltac:(lia) ltac:(lia)). lia. }
  assert (Hnew : forall a b m, max_days_365 s <= m ->
            Z.of_nat j' - Z.of_nat i <= m ->
            (a < S i)%nat -> (a <= b < length D)%nat -> at_ D b - at_ D a <= 364 ->
            Z.of_nat b - Z.of_nat a + 1 <= m).
  { intros a b m Hm1 Hm2 Ha Hb Hd.
    destruct (Nat.eq_dec a i) as [->|Hne].
    - pose proof (Hall b ltac:(lia) Hd). lia.
    - pose proof (Hup a b ltac:(lia) Hb Hd). lia. }
  destruct (Z.of_nat j' - Z.of_nat i >? max_days_365 s) eqn:E.
  - apply Z.gtb_lt in E.
    constructor; simpl.
    + lia.
    + lia.
    + exact Hnext.
    + lia.
    + intros a b Ha Hb Hd. apply (Hnew a b); try assumption; lia.
    + right. split; [lia|]. split; [lia|]. split; [apply Hwin; lia|lia].
    + intros a b Ha Hb Hd. pose proof (Hup a b Ha Hb Hd). lia.
  - rewrite Z.gtb_ltb in E. apply Z.ltb_ge in E.
    constructor; simpl.
    + lia.
    + lia.
    + exact Hnext.
    + lia.
    + intros a b Ha Hb Hd. apply (Hnew a b); try assumption; lia.
    + right. destruct Hbest as [(H0 & Hm & _)|Hb].
      * exfalso. lia.
      * fold i in Hb. split; [lia|]. split; [lia|]. split; [apply Hb|lia].
    + exact Hfirst.
Qed.

Lemma outer_while_spec : forall fuel s,
  scan_inv D s -> (length D - sc_i s <= fuel)%nat ->
  let s' := outer_while D s fuel in
  scan_inv D s' /\ (length D <= sc_i s')%nat.
Proof.
  induction fuel as [|f IH]; intros s Hs Hf; simpl.
  - split; [assumption|lia].
  - destruct (sc_i s <? length D)%nat eqn:E.
    + apply Nat.ltb_lt in E. apply IH.
      * now apply scan_inv_step.
      * rewrite outer_body_i. lia.
    + apply Nat.ltb_ge in E. split; assumption.
Qed.

(** The scan returns the maximum width of a pair within 364 days, with
    the first pair (from the left) that reaches it. *)
Lemma scan_correct :
  let s := scan D in
  0 <= max_days_365 s
  /\ (forall a b, (a <= b < length D)%nat -> at_ D b - at_ D a <= 364 ->
        Z.of_nat b - Z.of_nat a + 1 <= max_days_365 s)
  /\ (length D = 0%nat -> max_days_365 s = 0)
  /\ ((0 < length D)%nat ->
      (max_i s <= max_j s < length D)%nat
      /\ at_ D (max_j s) - at_ D (max_i s) <= 364
      /\ max_days_365 s = Z.of_nat (max_j s) - Z.of_nat (max_i s) + 1)
  /\ (forall a b, (a < max_i s)%nat -> (a <= b < length D)%nat ->
        at_ D b - at_ D a <= 364 ->
        Z.of_nat b - Z.of_nat a + 1 < max_days_365 s).
Proof.
  destruct (outer_while_spec (length D) (mkScan 0 0 0 0 0) scan_inv_init) as [I Hn];
    [simpl; lia|].
  unfold scan.
  set (s := outer_while D (mkScan 0 0 0 0 0) (length D)) in *.
  destruct I as [Hle Hjn Hin Hnn Hup Hbest Hfirst].
  split; [assumption|]. split.
  { intros a b Hab Hd. apply Hup; [lia|assumption|assumption]. }
  split.
  { intros H0. destruct Hbest as [(_ & Hm & _)|(Hb & _)]; [assumption|lia]. }
  split.
  { intros Hpos. destruct Hbest as [(H0 & _)|(A & B & C & E)]; [lia|].
    repeat split; try lia. }
  exact Hfirst.
Qed.

End Scan.

(** ** Counting covered days in a span *)

Lemma strictly_sorted_at_inv D : StrictlySorted D ->
  forall a b, (a < length D)%nat -> (b < length D)%nat ->
  at_ D a <= at_ D b -> (a <= b)%nat.
Proof.
  intros HD a b Ha Hb Hle.
  destruct (Nat.le_gt_cases a b) as [|Hgt]; [assumption|].
  pose proof (strictly_sorted_at D HD b a Hgt Ha). lia.
Qed.

Lemma In_at D x : In x D <-> exists k, (k < length D)%nat /\ at_ D k = x.
Proof.
  unfold at_. split.
  - intros H. apply (In_nth D x 0 H).
  - intros (k & Hk & <-). now apply nth_In.
Qed.

(** In a strictly ascending list the days between two of its entries are
    exactly the entries between their positions. *)
Lemma count_window D : StrictlySorted D ->
  forall a b, (a <= b)%nat -> (b < length D)%nat ->
  count_in D (at_ D a) (at_ D b) = Z.of_nat b - Z.of_nat a + 1.
Proof.
  intros HD a b Hab Hb. unfold count_in.
  assert (P : Permutation (filter (in_span (at_ D a) (at_ D b)) D)
                          (map (at_ D) (seq a (b - a + 1)))).
  { apply NoDup_Permutation.
    - apply NoDup_filter. now apply strictly_sorted_NoDup.
    - apply NoDup_map_NoDup_ForallPairs; [|apply seq_NoDup].
      intros x y Hx Hy E. apply in_seq in Hx, Hy.
      destruct (Nat.lt_trichotomy x y) as [L|[L|L]]; [|assumption|].
      + pose proof (strictly_sorted_at D HD x y L ltac:(lia)). lia.
      + pose proof (strictly_sorted_at D HD y x L ltac:(lia)). lia.
    - intros x. rewrite filter_In, in_map_iff. unfold in_span.
      rewrite andb_true_iff, !Z.leb_le. split.
      + intros [Hin [H1 H2]]. apply In_at in Hin. destruct Hin as (k & Hk & <-).
        exists k. split; [reflexivity|]. apply in_seq.
        pose proof (strictly_sorted_at_inv D HD a k ltac:(lia) Hk H1).
        pose proof (strictly_sorted_at_inv D HD k b Hk Hb H2). lia.
      + intros (k & <- & Hk). apply in_seq in Hk. split.
        * apply In_at. exists k. split; [lia|reflexivity].
        * split.
          -- destruct (Nat.eq_dec a k) as [->|]; [lia|].
             pose proof (strictly_sorted_at D HD a k ltac:(lia) ltac:(lia)). lia.
          -- destruct (Nat.eq_dec k b) as [->|]; [lia|].
             pose proof (strictly_sorted_at D HD k b ltac:(lia) ltac:(lia)). lia. }
  rewrite (Permutation_length P), length_map, length_seq. lia.
Qed.

Lemma count_in_incl D D' lo hi :
  NoDup D -> incl D D' -> count_in D lo hi <= count_in D' lo hi.
Proof.
  intros HD Hincl. unfold count_in. apply inj_le.
  apply NoDup_incl_length; [now apply NoDup_filter|].
  intros x Hx. apply filter_In in Hx. apply filter_In.
  split; [apply Hincl|]; tauto.
Qed.

(** ** The reference definition of the rolling maximum *)

Lemma In_pairs n a b : In (a, b) (pairs n) <-> (a <= b < n)%nat.
Proof.
  unfold pairs. rewrite in_flat_map. split.
  - intros (i & Hi & Hp). apply in_seq in Hi. apply in_map_iff in Hp.
    destruct Hp as (j & E & Hj). apply in_seq in Hj. inversion E; subst. lia.
  - intros H. exists a. split; [apply in_seq; lia|].
    apply in_map_iff. exists b. split; [reflexivity|apply in_seq; lia].
Qed.

Lemma fold_max_upper l x : In x l -> x <= fold_right Z.max 0 l.
Proof.
  induction l as [|y l IH]; simpl; [tauto|].
  intros [->|H]; [lia|]. specialize (IH H). lia.
Qed.

Lemma fold_max_attained l :
  fold_right Z.max 0 l = 0 \/ In (fold_right Z.max 0 l) l.
Proof.
  induction l as [|y l IH]; simpl; [now left|].
  destruct (Z.max_spec y (fold_right Z.max 0 l)) as [[_ E]|[_ E]]; rewrite E.
  - destruct IH as [IH|IH]; [now left|right; now right].
  - right. now left.
Qed.

Lemma reference_maxDays_upper D a b :
  (a <= b < length D)%nat -> at_ D b - at_ D a <= 364 ->
  Z.of_nat b - Z.of_nat a + 1 <= reference_maxDays D.
Proof.
  intros Hab Hd. unfold reference_maxDays.
  apply (fold_max_upper _ (width (a, b))).
  apply in_map. apply filter_In. split; [now apply In_pairs|].
  unfold within_span. simpl. now apply Z.leb_le.
Qed.

Lemma reference_maxDays_attained D :
  reference_maxDays D = 0
  \/ exists a b, (a <= b < length D)%nat /\ at_ D b - at_ D a <= 364
                 /\ reference_maxDays D = Z.of_nat b - Z.of_nat a + 1.
Proof.
  unfold reference_maxDays.
  destruct (fold_max_attained
              (map width (filter (within_span D) (pairs (length D))))) as [E|E].
  - now left.
  - right. apply in_map_iff in E. destruct E as ([a b] & Ew & Hin).
    apply filter_In in Hin. destruct Hin as [Hp Hs]. apply In_pairs in Hp.
    unfold within_span in Hs. simpl in Hs. apply Z.leb_le in Hs.
    exists a, b. split; [assumption|]. split; [assumption|].
    rewrite <- Ew. reflexivity.
Qed.

(** The scan agrees with the reference definition on every strictly
    ascending sequence of days. *)
Lemma scan_reference D :
  StrictlySorted D -> max_days_365 (scan D) = reference_maxDays D.
Proof.
  intros HD. destruct (scan_correct D HD) as (Hnn & Hup & H0 & Hpos & _).
  apply Z.le_antisymm.
  - destruct (length D) eqn:En.
    + rewrite H0 by reflexivity.
      unfold reference_maxDays. rewrite En. simpl. lia.
    + destruct (Hpos ltac:(lia)) as (A & B & C). rewrite C.
      apply reference_maxDays_upper; [rewrite En|]; assumption.
  - destruct (reference_maxDays_attained D) as [E|(a & b & Hab & Hd & E)].
    + rewrite E. assumption.
    + rewrite E. now apply Hup.
Qed.

(** ** The rolling window as a function of the covered days *)

Lemma rolling_window_days intervals :
  rolling_window intervals = rolling_of_days (covered_days intervals).
Proof.
  unfold rolling_window, rolling_of_days, covered_days.
  destruct intervals as [|r rest]; [reflexivity|].
  destruct (sorted _); reflexivity.
Qed.

Lemma covered_days_sorted intervals : StrictlySorted (covered_days intervals).
Proof. apply sorted_set_strict. Qed.

Lemma maxDays_rolling_of_days D :
  maxDays (rolling_of_days D) = max_days_365 (scan D).
Proof. destruct D; reflexivity. Qed.

(** ** Rows and aggregates *)

Lemma is_valid_true s e : is_valid (s, e) = true <-> s <= e.
Proof. unfold is_valid. simpl. rewrite negb_true_iff, Z.ltb_ge. tauto. Qed.

Lemma is_valid_false s e : is_valid (s, e) = false <-> e < s.
Proof. unfold is_valid. simpl. rewrite negb_false_iff, Z.ltb_lt. tauto. Qed.

Lemma rows_from_length Y ranges : forall i,
  length (rows_from Y i ranges) = length ranges.
Proof. induction ranges; intros i; simpl; [reflexivity|now rewrite IHranges]. Qed.

Lemma rows_from_nth Y ranges : forall i k r,
  nth_error ranges k = Some r ->
  nth_error (rows_from Y i ranges) k = Some (row_of Y (i + Z.of_nat k) r).
Proof.
  induction ranges as [|x l IH]; intros i k r H.
  - destruct k; discriminate.
  - destruct k as [|k]; simpl in *.
    + inversion H; subst. now rewrite Z.add_0_r.
    + rewrite (IH (i + 1) k r H). do 2 f_equal. lia.
Qed.

Lemma rows_from_days Y ranges : forall i,
  map Days_in_year (rows_from Y i ranges) = map (days_of Y) ranges.
Proof.
  induction ranges as [|r l IH]; intros i; simpl; [reflexivity|].
  rewrite IH. f_equal. unfold row_of, days_of. now destruct (is_valid r).
Qed.

Lemma errors_from_In ranges : forall i k r,
  nth_error ranges k = Some r -> is_valid r = false ->
  In (i + Z.of_nat k + 1) (errors_from i ranges).
Proof.
  induction ranges as [|x l IH]; intros i k r H Hr.
  - destruct k; discriminate.
  - destruct k as [|k]; simpl in *.
    + inversion H; subst. rewrite Hr. left. lia.
    + specialize (IH (i + 1) k r H Hr).
      replace (i + Z.pos (Pos.of_succ_nat k) + 1) with (i + 1 + Z.of_nat k + 1)
        by lia.
      destruct (is_valid x); [assumption|now right].
Qed.

Lemma total_days_of ranges Y :
  totalDaysInYear (computeStayAnalysis ranges Y) = sum (map (days_of Y) ranges).
Proof.
  rewrite analysis_unfold. simpl. unfold total_days. now rewrite rows_from_days.
Qed.

Lemma days_of_valid Y (s e : date) :
  s <= e -> days_of Y (s, e) = annual_contribution Y s e.
Proof. intros H. unfold days_of. now rewrite (proj2 (is_valid_true s e) H). Qed.

Lemma longest_stay_of ranges Y :
  longestSingleStay (computeStayAnalysis ranges Y)
  = longest_of (map stay_length_of (filter is_valid ranges)).
Proof. now rewrite analysis_unfold. Qed.

Lemma rolling_window_of ranges Y :
  rollingWindow (computeStayAnalysis ranges Y)
  = rolling_window (filter is_valid ranges).
Proof. now rewrite analysis_unfold. Qed.

(** Invalid ranges add nothing, so the total is the sum over the valid ones. *)
Lemma sum_days_valid Y ranges :
  sum (map (days_of Y) ranges)
  = sum (map (fun r => annual_contribution Y (fst r) (snd r))
             (filter is_valid ranges)).
Proof.
  induction ranges as [|r l IH]; simpl; [reflexivity|].
  rewrite sum_cons, IH. unfold days_of.
  destruct (is_valid r); simpl; [now rewrite sum_cons|lia].
Qed.

Lemma sum_Permutation l l' : Permutation l l' -> sum l = sum l'.
Proof.
  induction 1; rewrite ?sum_cons in *; lia.
Qed.

Lemma longest_of_cons x l : longest_of (x :: l) = Z.max x (longest_of l).
Proof. reflexivity. Qed.

Lemma longest_of_app l1 l2 :
  longest_of (l1 ++ l2) = Z.max (longest_of l1) (longest_of l2).
Proof.
  induction l1 as [|x l1 IH]; cbn [app].
  - pose proof (longest_of_nonneg l2). change (longest_of []) with 0. lia.
  - rewrite !longest_of_cons, IH. lia.
Qed.

Lemma longest_of_Permutation l l' :
  Permutation l l' -> longest_of l = longest_of l'.
Proof.
  induction 1; rewrite ?longest_of_cons in *; lia.
Qed.

Lemma filter_Permutation {A} (f : A -> bool) l l' :
  Permutation l l' -> Permutation (filter f l) (filter f l').
Proof.
  induction 1; simpl.
  - constructor.
  - destruct (f x); [now constructor|assumption].
  - destruct (f x), (f y); try apply Permutation_refl. apply perm_swap.
  - eapply Permutation_trans; eassumption.
Qed.

Lemma nth_error_middle {A} (l1 l2 : list A) x y k :
  k <> length l1 ->
  nth_error (l1 ++ x :: l2) k = nth_error (l1 ++ y :: l2) k.
Proof.
  revert k. induction l1 as [|a l1 IH]; intros k Hk; simpl in *.
  - destruct k; [congruence|reflexivity].
  - destruct k; [reflexivity|]. simpl. apply IH. congruence.
Qed.

Lemma nth_error_at_middle {A} (l1 l2 : list A) x :
  nth_error (l1 ++ x :: l2) (length l1) = Some x.
Proof. induction l1; simpl; [reflexivity|assumption]. Qed.

(** ** The rolling window depends on the covered days only *)

Lemma rolling_window_ext I I' :
  (forall d, covered I d <-> covered I' d) ->
  rolling_window I = rolling_window I'.
Proof.
  intros H. rewrite !rolling_window_days. now rewrite (covered_days_ext I I' H).
Qed.

Lemma maxDays_nonneg I : 0 <= maxDays (rolling_window I).
Proof.
  rewrite rolling_window_days, maxDays_rolling_of_days.
  apply (scan_correct _ (covered_days_sorted I)).
Qed.

(** Covering more days never lowers the rolling maximum. *)
Lemma maxDays_mono I I' :
  (forall d, covered I d -> covered I' d) ->
  maxDays (rolling_window I) <= maxDays (rolling_window I').
Proof.
  intros Hsub.
  pose proof (maxDays_nonneg I') as Hnn'.
  rewrite !rolling_window_days, !maxDays_rolling_of_days in *.
  set (D := covered_days I) in *. set (D' := covered_days I') in *.
  pose proof (covered_days_sorted I) as HD. fold D in HD.
  pose proof (covered_days_sorted I') as HD'. fold D' in HD'.
  assert (Hincl : incl D D').
  { intros x Hx. apply In_covered_days. apply Hsub. now apply In_covered_days. }
  destruct (scan_correct D HD) as (_ & _ & H0 & Hpos & _).
  destruct (scan_correct D' HD') as (_ & Hup' & _).
  destruct (length D) eqn:En.
  - rewrite H0 by reflexivity. assumption.
  - destruct (Hpos ltac:(lia)) as (A & B & C). rewrite C.
    rewrite <- (count_window D HD (max_i (scan D)) (max_j (scan D)))
      by (rewrite ?En; lia).
    set (lo := at_ D (max_i (scan D))) in *.
    set (hi := at_ D (max_j (scan D))) in *.
    assert (Hlo : In lo D') by (apply Hincl, In_at; exists (max_i (scan D));
                                 split; [rewrite En; lia|reflexivity]).
    assert (Hhi : In hi D') by (apply Hincl, In_at; exists (max_j (scan D));
                                 split; [rewrite En; lia|reflexivity]).
    apply In_at in Hlo, Hhi.
    destruct Hlo as (a' & Ha' & Ea). destruct Hhi as (b' & Hb' & Eb).
    assert (Hle : lo <= hi).
    { subst lo hi. destruct (Nat.eq_dec (max_i (scan D)) (max_j (scan D))) as [E|E].
      - rewrite E. lia.
      - pose proof (strictly_sorted_at D HD (max_i (scan D)) (max_j (scan D))
                      ltac:(lia) ltac:(rewrite En; lia)). lia. }
    assert (Hab : (a' <= b')%nat).
    { apply (strictly_sorted_at_inv D' HD'); try assumption. lia. }
    apply Z.le_trans with (count_in D' lo hi).
    + apply count_in_incl; [now apply strictly_sorted_NoDup|assumption].
    + rewrite <- Ea, <- Eb. rewrite (count_window D' HD' a' b' Hab Hb').
      apply Hup'; [lia|]. rewrite Ea, Eb. assumption.
Qed.

Lemma covered_app I1 I2 d : covered (I1 ++ I2) d <-> covered I1 d \/ covered I2 d.
Proof.
  unfold covered. split.
  - intros (s & e & Hin & H). apply in_app_or in Hin.
    destruct Hin; [left|right]; eauto.
  - intros [(s & e & Hin & H)|(s & e & Hin & H)]; exists s, e;
      (split; [apply in_or_app; tauto|assumption]).
Qed.

Lemma covered_cons s e I d : covered ((s, e) :: I) d <-> s <= d <= e \/ covered I d.
Proof.
  unfold covered. split.
  - intros (s' & e' & [E|Hin] & H); [inversion E; subst; now left|right; eauto].
  - intros [H|(s' & e' & Hin & H)]; [exists s, e|exists s', e']; simpl; tauto.
Qed.

Lemma covered_valid ranges d :
  covered (filter is_valid ranges) d
  <-> exists s e, In (s, e) ranges /\ s <= e /\ s <= d <= e.
Proof.
  unfold covered. split.
  - intros (s & e & Hin & H). apply filter_In in Hin. destruct Hin as [Hin Hv].
    apply is_valid_true in Hv. exists s, e. tauto.
  - intros (s & e & Hin & Hv & H). exists s, e. split; [|assumption].
    apply filter_In. split; [assumption|]. now apply is_valid_true.
Qed.

(** ** Covered days and the list the scan runs on *)

Lemma is_covered_true ranges d :
  is_covered ranges d = true <-> exists s e, In (s, e) ranges /\ s <= d <= e.
Proof.
  unfold is_covered. rewrite existsb_exists. split.
  - intros ([s e] & Hin & H). simpl in H.
    rewrite andb_true_iff, !Z.leb_le in H. eauto.
  - intros (s & e & Hin & H). exists (s, e). split; [assumption|]. simpl.
    rewrite andb_true_iff, !Z.leb_le. assumption.
Qed.

Lemma In_days_between lo hi x : In x (days_between lo hi) <-> lo <= x <= hi.
Proof.
  unfold days_between. rewrite in_map_iff. split.
  - intros (k & <- & Hk). apply in_seq in Hk. lia.
  - intros H. exists (Z.to_nat (x - lo)). split; [lia|]. apply in_seq. lia.
Qed.

Lemma days_between_NoDup lo hi : NoDup (days_between lo hi).
Proof.
  unfold days_between. apply NoDup_map_NoDup_ForallPairs; [|apply seq_NoDup].
  intros a b _ _ E. lia.
Qed.

(** The run's list of days holds exactly the days of the input ranges. *)
Lemma In_run_days ranges Y d :
  In d (covered_days (valid_intervals (run_loop Y init_state 0 ranges)))
  <-> exists s e, In (s, e) ranges /\ s <= d <= e.
Proof.
  rewrite run_loop_unfold. simpl valid_intervals.
  rewrite In_covered_days, covered_valid. split.
  - intros (s & e & Hin & _ & H). eauto.
  - intros (s & e & Hin & H). exists s, e. repeat split; (assumption || lia).
Qed.

(** Counting the covered days of a span day by day gives the number of
    entries of the run's list inside the span. *)
Lemma covered_count_run ranges Y lo hi :
  covered_count ranges lo hi
  = count_in (covered_days (valid_intervals (run_loop Y init_state 0 ranges)))
             lo hi.
Proof.
  unfold covered_count, count_in. f_equal.
  apply Permutation_length, NoDup_Permutation.
  - apply NoDup_filter, days_between_NoDup.
  - apply NoDup_filter, strictly_sorted_NoDup, covered_days_sorted.
  - intros x. rewrite !filter_In, In_days_between, is_covered_true, In_run_days.
    unfold in_span. rewrite andb_true_iff, !Z.leb_le. tauto.
Qed.

(** ** Scenarios, evaluated *)

Example scenario_A :
  let a := computeStayAnalysis [(mkdate 2024 1 1, mkdate 2024 1 10)] 2024 in
  map Stay_Length (perRange a) = [10] /\ map Days_in_year (perRange a) = [10]
  /\ longestSingleStay a = 10 /\ maxDays (rollingWindow a) = 10.
Proof. vm_compute. repeat split. Qed.

(** Two single days more than a year apart: the maximum is 1 and the
    first of the two windows is the one reported. *)
Example scenario_far_apart :
  let d1 := mkdate 2023 1 1 in
  let d2 := mkdate 2024 6 1 in
  rollingWindow (computeStayAnalysis [(d2, d2); (d1, d1)] 2024)
  = mkRolling 1 (Some d1) (Some d1).
Proof. vm_compute. reflexivity. Qed.

(** Two days 364 days apart share a window, 365 days apart they do not. *)
Example scenario_span_boundary :
  let d := mkdate 2023 1 1 in
  maxDays (rollingWindow (computeStayAnalysis [(d, d); (d + 364, d + 364)] 2023)) = 2
  /\ maxDays (rollingWindow (computeStayAnalysis [(d, d); (d + 365, d + 365)] 2023)) = 1.
Proof. vm_compute. split; reflexivity. Qed.

(** Overlapping ranges cover a day once, a range with [end < start]
    covers nothing. *)
Example scenario_covered_count :
  covered_count [(1, 10); (5, 5); (30, 20)] 1 40 = 10
  /\ covered_count [(1, 10); (5, 5); (30, 20)] 4 6 = 3.
Proof. vm_compute. split; reflexivity. Qed.

(** * The claims of the specification *)

(** C1. For every list of ranges, [D], the sequence the scan runs on, is
    strictly ascending (hence without duplicates) and holds exactly the days
    covered by a valid interval; the reported [maxDays] is the reference
    maximum of [j - i + 1] over the pairs [0 <= i <= j < n] with
    [D[j] - D[i] <= 364]: it bounds every such pair, some pair reaches it
    when [D] is not empty, and it is 0 when [D] is empty. *)
Theorem C1_rolling_maximum_is_reference (ranges : list (date * date)) (Y : Z) :
  let D := covered_days (valid_intervals (run_loop Y init_state 0 ranges)) in
  let n := length D in
  let m := maxDays (rollingWindow (computeStayAnalysis ranges Y)) in
  StrictlySorted D
  /\ (forall d, In d D <->
                exists s e, In (s, e) ranges /\ s <= e /\ s <= d <= e)
  /\ m = reference_maxDays D
  /\ (forall i j, (i <= j < n)%nat -> at_ D j - at_ D i <= 364 ->
        Z.of_nat j - Z.of_nat i + 1 <= m)
  /\ ((0 < n)%nat ->
      exists i j, (i <= j < n)%nat /\ at_ D j - at_ D i <= 364
                  /\ m = Z.of_nat j - Z.of_nat i + 1)
  /\ (n = 0%nat -> m = 0).
Proof.
  unfold computeStayAnalysis. simpl.
  rewrite run_loop_unfold. simpl.
  rewrite rolling_window_days, maxDays_rolling_of_days.
  set (D := covered_days (filter is_valid ranges)).
  pose proof (covered_days_sorted (filter is_valid ranges)) as HD. fold D in HD.
  destruct (scan_correct D HD) as (_ & Hup & H0 & Hpos & _).
  split; [assumption|]. split.
  { intros d. unfold D. rewrite In_covered_days. apply covered_valid. }
  split; [now apply scan_reference|].
  split; [assumption|]. split; [|assumption].
  intros Hn. destruct (Hpos Hn) as (A & B & C).
  exists (max_i (scan D)), (max_j (scan D)). tauto.
Qed.

(** C2. For a valid interval at position [k] and target year [Y], the
    row's annual days are the clamp-and-count of the interval against
    [Jan 1 Y .. Dec 31 Y]: 0 when the clamped start is after the clamped end,
    the inclusive count otherwise; [totalDaysInYear] is the sum of these
    contributions over the valid intervals.  The range 2024-12-20 to
    2025-01-10 has 12 days in 2024, 10 days in 2025 and a stay length of 22. *)
Theorem C2_annual_intersection (ranges : list (date * date)) (Y : Z) (k : nat)
    (s e : date) :
  nth_error ranges k = Some (s, e) -> s <= e ->
  let a := computeStayAnalysis ranges Y in
  let effectiveStart := Z.max s (mkdate Y 1 1) in
  let effectiveEnd := Z.min e (mkdate Y 12 31) in
  (exists rw, nth_error (perRange a) k = Some rw
              /\ Days_in_year rw = annual_contribution Y s e)
  /\ (effectiveStart > effectiveEnd -> annual_contribution Y s e = 0)
  /\ (effectiveStart <= effectiveEnd ->
      annual_contribution Y s e = effectiveEnd - effectiveStart + 1)
  /\ totalDaysInYear a
     = sum (map (fun r => annual_contribution Y (fst r) (snd r))
                (valid_intervals (run_loop Y init_state 0 ranges)))
  /\ (let r := (mkdate 2024 12 20, mkdate 2025 1 10) in
      map Days_in_year (perRange (computeStayAnalysis [r] 2024)) = [12]
      /\ totalDaysInYear (computeStayAnalysis [r] 2024) = 12
      /\ map Days_in_year (perRange (computeStayAnalysis [r] 2025)) = [10]
      /\ totalDaysInYear (computeStayAnalysis [r] 2025) = 10
      /\ map Stay_Length (perRange (computeStayAnalysis [r] 2024)) = [22]).
Proof.
  intros Hk Hv a es ee. subst a.
  split.
  { rewrite analysis_unfold. simpl.
    exists (row_of Y (0 + Z.of_nat k) (s, e)). split.
    - now apply rows_from_nth.
    - unfold row_of. now rewrite (proj2 (is_valid_true s e) Hv). }
  split.
  { intros H. unfold annual_contribution. fold es ee.
    destruct (es >? ee) eqn:E; [reflexivity|].
    rewrite Z.gtb_ltb in E. apply Z.ltb_ge in E. lia. }
  split.
  { intros H. unfold annual_contribution. fold es ee.
    destruct (es >? ee) eqn:E; [|reflexivity].
    apply Z.gtb_lt in E. lia. }
  split.
  { rewrite total_days_of, sum_days_valid, run_loop_unfold. reflexivity. }
  vm_compute. repeat split.
Qed.

Lemma C2_annual_intersection_witness :
  let r := (mkdate 2024 12 20, mkdate 2025 1 10) in
  exists rw, nth_error (perRange (computeStayAnalysis [r] 2024)) 0 = Some rw
             /\ Days_in_year rw = annual_contribution 2024 (fst r) (snd r).
Proof.
  exact (proj1 (C2_annual_intersection
                  [(mkdate 2024 12 20, mkdate 2025 1 10)] 2024 0
                  (mkdate 2024 12 20) (mkdate 2025 1 10)
                  eq_refl ltac:(vm_compute; discriminate))).
Defined.

(** C3. A range with [end < start] at any position gets a row with stay
    length 0 and 0 annual days and its label is reported as an error; the
    total, the longest stay and the rolling window are those of the list
    without it; every other position keeps the row it has whatever range
    stands at the invalid position.  The engine is a total function: no
    input makes it fail. *)
Theorem C3_invalid_range_is_ignored (l1 l2 : list (date * date)) (s e : date)
    (Y : Z) :
  e < s ->
  let a := computeStayAnalysis (l1 ++ (s, e) :: l2) Y in
  let a' := computeStayAnalysis (l1 ++ l2) Y in
  let label := Z.of_nat (length l1) + 1 in
  nth_error (perRange a) (length l1) = Some (mkRow label (s, e) 0 0)
  /\ In label (errors a)
  /\ length (perRange a) = length (l1 ++ (s, e) :: l2)
  /\ valid_intervals (run_loop Y init_state 0 (l1 ++ (s, e) :: l2))
     = valid_intervals (run_loop Y init_state 0 (l1 ++ l2))
  /\ totalDaysInYear a = totalDaysInYear a'
  /\ longestSingleStay a = longestSingleStay a'
  /\ rollingWindow a = rollingWindow a'
  /\ (forall k r, k <> length l1 ->
        nth_error (l1 ++ (s, e) :: l2) k = Some r ->
        nth_error (perRange a) k = Some (row_of Y (Z.of_nat k) r))
  /\ (forall k r', k <> length l1 ->
        nth_error (perRange a) k
        = nth_error (perRange (computeStayAnalysis (l1 ++ r' :: l2) Y)) k).
Proof.
  intros He a a' label. subst a a' label.
  pose proof (proj2 (is_valid_false s e) He) as Hinv.
  assert (Hf : filter is_valid (l1 ++ (s, e) :: l2) = filter is_valid (l1 ++ l2)).
  { rewrite !filter_app. simpl. now rewrite Hinv. }
  assert (Hrow : forall k r, nth_error (l1 ++ (s, e) :: l2) k = Some r ->
            nth_error (perRange (computeStayAnalysis (l1 ++ (s, e) :: l2) Y)) k
            = Some (row_of Y (Z.of_nat k) r)).
  { intros k r H. rewrite analysis_unfold. simpl.
    now rewrite (rows_from_nth Y _ 0 k r H). }
  split.
  { rewrite (Hrow _ (s, e) (nth_error_at_middle l1 l2 (s, e))).
    unfold row_of. now rewrite Hinv. }
  split.
  { rewrite analysis_unfold. simpl.
    apply (errors_from_In _ 0 (length l1) (s, e));
      [apply nth_error_at_middle|assumption]. }
  split.
  { rewrite analysis_unfold. simpl. apply rows_from_length. }
  split.
  { rewrite !run_loop_unfold. simpl. assumption. }
  split.
  { rewrite !total_days_of, !sum_days_valid. now rewrite Hf. }
  split.
  { rewrite !analysis_unfold. simpl. now rewrite Hf. }
  split.
  { rewrite !analysis_unfold. simpl. now rewrite Hf. }
  split.
  { intros k r _ H. now apply Hrow. }
  intros k r' Hk.
  destruct (nth_error (l1 ++ (s, e) :: l2) k) as [r|] eqn:E.
  - rewrite (Hrow k r E). rewrite (nth_error_middle l1 l2 (s, e) r' k Hk) in E.
    rewrite analysis_unfold. simpl. now rewrite (rows_from_nth Y _ 0 k r E).
  - apply nth_error_None in E. rewrite !analysis_unfold. simpl.
    rewrite (proj2 (nth_error_None _ _)), (proj2 (nth_error_None _ _));
      [reflexivity| |]; rewrite rows_from_length, ?length_app in *; simpl in *; lia.
Qed.

Lemma C3_invalid_range_is_ignored_witness :
  let l1 := [(mkdate 2024 1 1, mkdate 2024 1 10)] in
  let l2 := [(mkdate 2024 3 1, mkdate 2024 3 5)] in
  let bad := (mkdate 2024 2 9, mkdate 2024 2 1) in
  rollingWindow (computeStayAnalysis (l1 ++ bad :: l2) 2024)
  = rollingWindow (computeStayAnalysis (l1 ++ l2) 2024).
Proof.
  intros l1 l2 bad.
  exact (proj1 (proj2 (proj2 (proj2 (proj2 (proj2 (proj2
           (C3_invalid_range_is_ignored l1 l2 (fst bad) (snd bad) 2024
              ltac:(vm_compute; reflexivity))))))))).
Defined.

(** C4. A valid interval's row has stay length [(end - start) + 1]; it is
    at least 1, and exactly 1 when [start = end]. *)
Theorem C4_inclusive_stay_length (ranges : list (date * date)) (Y : Z)
    (k : nat) (s e : date) :
  nth_error ranges k = Some (s, e) -> s <= e ->
  exists rw, nth_error (perRange (computeStayAnalysis ranges Y)) k = Some rw
             /\ Stay_Length rw = (e - s) + 1
             /\ 1 <= Stay_Length rw
             /\ (s = e -> Stay_Length rw = 1).
Proof.
  intros Hk Hv. rewrite analysis_unfold. simpl.
  exists (row_of Y (0 + Z.of_nat k) (s, e)). split.
  - now apply rows_from_nth.
  - unfold row_of. rewrite (proj2 (is_valid_true s e) Hv).
    unfold stay_length_of. simpl. lia.
Qed.

Lemma C4_inclusive_stay_length_witness :
  let d := mkdate 2024 2 29 in
  exists rw, nth_error (perRange (computeStayAnalysis [(d, d)] 2024)) 0 = Some rw
             /\ Stay_Length rw = (d - d) + 1
             /\ 1 <= Stay_Length rw
             /\ (d = d -> Stay_Length rw = 1).
Proof.
  intros d.
  exact (C4_inclusive_stay_length [(d, d)] 2024 0 d d eq_refl (Z.le_refl d)).
Defined.

(** C5. When no supplied range is valid (none supplied, or every one with
    [end < start]) there is no valid interval, and the engine returns total
    0, longest stay 0, rolling maximum 0 and no window bounds. *)
Theorem C5_empty_valid_set (ranges : list (date * date)) (Y : Z) :
  (forall s e, In (s, e) ranges -> e < s) ->
  let a := computeStayAnalysis ranges Y in
  valid_intervals (run_loop Y init_state 0 ranges) = []
  /\ totalDaysInYear a = 0
  /\ longestSingleStay a = 0
  /\ maxDays (rollingWindow a) = 0
  /\ windowStart (rollingWindow a) = None
  /\ windowEnd (rollingWindow a) = None.
Proof.
  intros H a. subst a.
  assert (Hf : filter is_valid ranges = []).
  { induction ranges as [|[s e] l IH]; simpl; [reflexivity|].
    rewrite (proj2 (is_valid_false s e) (H s e (or_introl eq_refl))).
    apply IH. intros s' e' Hin. apply H. now right. }
  split; [rewrite run_loop_unfold; simpl; assumption|].
  split; [rewrite total_days_of, sum_days_valid, Hf; reflexivity|].
  rewrite analysis_unfold. simpl. rewrite Hf. repeat split.
Qed.

Lemma C5_empty_valid_set_witness :
  let ranges := [(mkdate 2024 5 9, mkdate 2024 5 1);
                 (mkdate 2025 1 2, mkdate 2024 12 30)] in
  totalDaysInYear (computeStayAnalysis ranges 2024) = 0.
Proof.
  intros ranges.
  refine (proj1 (proj2 (C5_empty_valid_set ranges 2024 _))).
  intros s e [E|[E|[]]]; inversion E; subst; vm_compute; reflexivity.
Defined.

Lemma annual_contribution_mono Y s e :
  annual_contribution Y s e <= annual_contribution Y s (e + 1).
Proof.
  unfold annual_contribution.
  generalize (mkdate Y 1 1) (mkdate Y 12 31). intros ys ye.
  rewrite !Z.gtb_ltb.
  destruct (Z.ltb_spec (Z.min e ye) (Z.max s ys));
    destruct (Z.ltb_spec (Z.min (e + 1) ye) (Z.max s ys)); lia.
Qed.

Lemma rolling_single_day d :
  rolling_window [(d, d)] = mkRolling 1 (Some d) (Some d).
Proof.
  unfold rolling_window, collect_days, expand. simpl flat_map.
  replace (d - d + 1) with 1 by lia.
  change (Z.to_nat 1) with 1%nat. simpl expand_from.
  rewrite Z.add_0_r. simpl.
  unfold scan. simpl. unfold outer_body. simpl.
  unfold at_. simpl. rewrite Z.sub_diag. simpl. reflexivity.
Qed.

(** C6. Permuting the list of ranges changes neither [totalDaysInYear], nor
    [longestSingleStay], nor the rolling window (maximum and both bounds). *)
Theorem C6_order_invariance (ranges ranges' : list (date * date)) (Y : Z) :
  Permutation ranges ranges' ->
  let a := computeStayAnalysis ranges Y in
  let a' := computeStayAnalysis ranges' Y in
  totalDaysInYear a = totalDaysInYear a'
  /\ longestSingleStay a = longestSingleStay a'
  /\ maxDays (rollingWindow a) = maxDays (rollingWindow a')
  /\ windowStart (rollingWindow a) = windowStart (rollingWindow a')
  /\ windowEnd (rollingWindow a) = windowEnd (rollingWindow a').
Proof.
  intros P a a'. subst a a'.
  assert (R : rollingWindow (computeStayAnalysis ranges Y)
              = rollingWindow (computeStayAnalysis ranges' Y)).
  { rewrite !analysis_unfold. simpl. apply rolling_window_ext.
    intros d. unfold covered.
    pose proof (filter_Permutation is_valid _ _ P) as PF.
    split; intros (s & e & Hin & H); exists s, e; (split; [|assumption]).
    - now apply (Permutation_in _ PF).
    - now apply (Permutation_in _ (Permutation_sym PF)). }
  split.
  { rewrite !total_days_of. apply sum_Permutation. now apply Permutation_map. }
  split.
  { rewrite !analysis_unfold. simpl. apply longest_of_Permutation.
    apply Permutation_map. now apply filter_Permutation. }
  rewrite R. repeat split.
Qed.

Lemma C6_order_invariance_witness :
  let r1 := (mkdate 2024 1 1, mkdate 2024 1 10) in
  let r2 := (mkdate 2024 12 20, mkdate 2025 1 10) in
  totalDaysInYear (computeStayAnalysis [r1; r2] 2024)
  = totalDaysInYear (computeStayAnalysis [r2; r1] 2024).
Proof.
  intros r1 r2.
  exact (proj1 (C6_order_invariance [r1; r2] [r2; r1] 2024 (perm_swap r2 r1 []))).
Defined.

(** C7. Two inputs whose valid intervals cover the same days have the same
    rolling maximum (and the same window); in particular two copies of a
    valid range give what one copy gives. *)
Theorem C7_overlap_dedup (ranges ranges' : list (date * date)) (Y : Z)
    (s e : date) :
  (forall d, covered (valid_intervals (run_loop Y init_state 0 ranges)) d
             <-> covered (valid_intervals (run_loop Y init_state 0 ranges')) d) ->
  s <= e ->
  maxDays (rollingWindow (computeStayAnalysis ranges Y))
  = maxDays (rollingWindow (computeStayAnalysis ranges' Y))
  /\ rollingWindow (computeStayAnalysis ranges Y)
     = rollingWindow (computeStayAnalysis ranges' Y)
  /\ maxDays (rollingWindow (computeStayAnalysis [(s, e); (s, e)] Y))
     = maxDays (rollingWindow (computeStayAnalysis [(s, e)] Y)).
Proof.
  intros H Hv. rewrite !run_loop_unfold in H. simpl in H.
  assert (R : rollingWindow (computeStayAnalysis ranges Y)
              = rollingWindow (computeStayAnalysis ranges' Y)).
  { rewrite !analysis_unfold. simpl. now apply rolling_window_ext. }
  split; [now rewrite R|]. split; [assumption|].
  rewrite !analysis_unfold. simpl.
  rewrite (proj2 (is_valid_true s e) Hv).
  f_equal. apply rolling_window_ext. intros d.
  rewrite !covered_cons. tauto.
Qed.

Lemma C7_overlap_dedup_witness :
  let r := (mkdate 2024 1 1, mkdate 2024 1 10) in
  let r1 := (mkdate 2024 1 1, mkdate 2024 1 6) in
  let r2 := (mkdate 2024 1 4, mkdate 2024 1 10) in
  maxDays (rollingWindow (computeStayAnalysis [r1; r2] 2024))
  = maxDays (rollingWindow (computeStayAnalysis [r] 2024)).
Proof.
  intros r r1 r2.
  refine (proj1 (C7_overlap_dedup [r1; r2] [r] 2024 (fst r) (snd r) _ _)).
  - intros d. vm_compute valid_intervals. rewrite !covered_cons.
    unfold covered. simpl. split.
    + intros [H|[H|(s & e & [] & _)]]; left; lia.
    + intros [H|(s & e & [] & _)].
      destruct (Z_le_gt_dec d 738891); [left; lia|right; left; lia].
  - vm_compute. discriminate.
Defined.

(** C8. Replacing the end of a valid range by the next day lowers neither
    [totalDaysInYear], nor [longestSingleStay], nor the rolling maximum. *)
Theorem C8_extension_monotone (l1 l2 : list (date * date)) (s e : date)
    (Y : Z) :
  s <= e ->
  let a := computeStayAnalysis (l1 ++ (s, e) :: l2) Y in
  let a' := computeStayAnalysis (l1 ++ (s, e + 1) :: l2) Y in
  totalDaysInYear a <= totalDaysInYear a'
  /\ longestSingleStay a <= longestSingleStay a'
  /\ maxDays (rollingWindow a) <= maxDays (rollingWindow a').
Proof.
  intros Hv a a'. subst a a'.
  change (@pair date Z s (e + 1)) with (@pair date date s (e + 1)).
  pose proof (proj2 (is_valid_true s e) Hv) as V.
  pose proof (proj2 (is_valid_true s (e + 1)) ltac:(lia)) as V'.
  split.
  { rewrite !total_days_of, !map_app, !sum_app. cbn [map]. rewrite !sum_cons.
    rewrite (days_of_valid Y s e), (days_of_valid Y s (e + 1)) by lia.
    pose proof (annual_contribution_mono Y s e). lia. }
  split.
  { rewrite !longest_stay_of.
    rewrite !filter_app. cbn [filter]. rewrite V, V'.
    rewrite !map_app, !longest_of_app. cbn [map]. rewrite !longest_of_cons.
    unfold stay_length_of. cbn [fst snd]. lia. }
  rewrite !rolling_window_of. apply maxDays_mono.
  intros d. rewrite !filter_app. cbn [filter]. rewrite V, V'.
  rewrite !covered_app, !covered_cons. intros [H|[H|H]]; try tauto.
  right. left. lia.
Qed.

Lemma C8_extension_monotone_witness :
  let r := (mkdate 2024 12 20, mkdate 2024 12 31) in
  let r' := (mkdate 2024 12 20, mkdate 2024 12 31 + 1) in
  let other := (mkdate 2024 1 1, mkdate 2024 1 10) in
  maxDays (rollingWindow (computeStayAnalysis ([other] ++ r :: []) 2024))
  <= maxDays (rollingWindow (computeStayAnalysis ([other] ++ r' :: []) 2024)).
Proof.
  intros r r' other.
  exact (proj2 (proj2 (C8_extension_monotone [other] [] (fst r) (snd r) 2024
                         ltac:(vm_compute; discriminate)))).
Defined.

(* The window in terms of the entries of the list the scan runs on. *)
Lemma window_bounds_entries (ranges : list (date * date)) (Y : Z) :
  (exists s e, In (s, e) ranges /\ s <= e) ->
  let w := rollingWindow (computeStayAnalysis ranges Y) in
  let D := covered_days (valid_intervals (run_loop Y init_state 0 ranges)) in
  (exists ws we,
      windowStart w = Some ws /\ windowEnd w = Some we
      /\ In ws D /\ In we D
      /\ covered (valid_intervals (run_loop Y init_state 0 ranges)) ws
      /\ covered (valid_intervals (run_loop Y init_state 0 ranges)) we
      /\ ws <= we /\ we - ws <= 364
      /\ maxDays w = count_in D ws we
      /\ 1 <= maxDays w)
  /\ (forall d, rollingWindow (computeStayAnalysis [(d, d)] Y)
                = mkRolling 1 (Some d) (Some d)).
Proof.
  intros (s & e & Hin & Hv) w D. subst w D.
  split.
  - rewrite analysis_unfold, run_loop_unfold. simpl.
    set (I := filter is_valid ranges).
    rewrite rolling_window_days.
    set (D := covered_days I).
    pose proof (covered_days_sorted I) as HD. fold D in HD.
    assert (Hs : In s D).
    { unfold D, I. rewrite In_covered_days, covered_valid.
      exists s, e. repeat split; try assumption; lia. }
    assert (Hn : (0 < length D)%nat) by (destruct D; [contradiction|simpl; lia]).
    destruct (scan_correct D HD) as (_ & _ & _ & Hpos & _).
    destruct (Hpos Hn) as (A & B & C).
    assert (Hi : In (at_ D (max_i (scan D))) D)
      by (apply In_at; exists (max_i (scan D)); split; [lia|reflexivity]).
    assert (Hj : In (at_ D (max_j (scan D))) D)
      by (apply In_at; exists (max_j (scan D)); split; [lia|reflexivity]).
    exists (at_ D (max_i (scan D))), (at_ D (max_j (scan D))).
    assert (E : rolling_of_days D
                = mkRolling (max_days_365 (scan D))
                            (Some (at_ D (max_i (scan D))))
                            (Some (at_ D (max_j (scan D)))))
      by (destruct D; [simpl in Hn; lia|reflexivity]).
    rewrite E. simpl.
    split; [reflexivity|]. split; [reflexivity|].
    split; [assumption|]. split; [assumption|].
    split; [now apply In_covered_days|]. split; [now apply In_covered_days|].
    split.
    { destruct (Nat.eq_dec (max_i (scan D)) (max_j (scan D))) as [Q|Q].
      - rewrite Q. lia.
      - pose proof (strictly_sorted_at D HD (max_i (scan D)) (max_j (scan D))
                      ltac:(lia) ltac:(lia)). lia. }
    split; [assumption|].
    split; [|lia].
    rewrite (count_window D HD _ _ (proj1 A) (proj2 A)). assumption.
  - intros d. rewrite analysis_unfold. simpl.
    rewrite (proj2 (is_valid_true d d) (Z.le_refl d)).
    apply rolling_single_day.
Qed.

(** C9. With at least one valid interval both window bounds are reported;
    they are covered days, that is days of some valid input range, and
    members of the deduplicated day list, which is strictly ascending and
    holds exactly the covered days; [windowStart <= windowEnd], they are at
    most 364 days apart, and [maxDays] is the number of covered days from
    [windowStart] to [windowEnd], counted calendar day by calendar day on
    the input ranges; a single one-day interval gives [maxDays = 1] with
    that day as both bounds. *)
Theorem C9_window_bounds (ranges : list (date * date)) (Y : Z) :
  (exists s e, In (s, e) ranges /\ s <= e) ->
  let w := rollingWindow (computeStayAnalysis ranges Y) in
  let D := covered_days (valid_intervals (run_loop Y init_state 0 ranges)) in
  (StrictlySorted D
   /\ forall d, In d D <->
                exists s e, In (s, e) ranges /\ s <= e /\ s <= d <= e)
  /\ (exists ws we,
      windowStart w = Some ws /\ windowEnd w = Some we
      /\ In ws D /\ In we D
      /\ covered (valid_intervals (run_loop Y init_state 0 ranges)) ws
      /\ covered (valid_intervals (run_loop Y init_state 0 ranges)) we
      /\ (exists s e, In (s, e) ranges /\ s <= e /\ s <= ws <= e)
      /\ (exists s e, In (s, e) ranges /\ s <= e /\ s <= we <= e)
      /\ ws <= we /\ we - ws <= 364
      /\ maxDays w = count_in D ws we
      /\ maxDays w = covered_count ranges ws we
      /\ 1 <= maxDays w)
  /\ (forall d, rollingWindow (computeStayAnalysis [(d, d)] Y)
                = mkRolling 1 (Some d) (Some d)).
Proof.
  intros Hex w D.
  destruct (window_bounds_entries ranges Y Hex) as [Hw Hone].
  fold w D in Hw.
  assert (HinD : forall d, In d D <->
            exists s e, In (s, e) ranges /\ s <= e /\ s <= d <= e).
  { intros d. unfold D. rewrite In_run_days. split.
    - intros (s & e & Hin & H). exists s, e. repeat split; (assumption || lia).
    - intros (s & e & Hin & _ & H). eauto. }
  split; [split; [apply covered_days_sorted|exact HinD]|].
  split; [|exact Hone].
  destruct Hw as (ws & we & A1 & A2 & A3 & A4 & A5 & A6 & A7 & A8 & A9 & A10).
  exists ws, we.
  split; [assumption|]. split; [assumption|].
  split; [assumption|]. split; [assumption|].
  split; [assumption|]. split; [assumption|].
  split; [now apply HinD|]. split; [now apply HinD|].
  split; [assumption|]. split; [assumption|]. split; [assumption|].
  split; [|assumption].
  rewrite (covered_count_run ranges Y). exact A9.
Qed.

Lemma C9_window_bounds_witness :
  let ranges := [(mkdate 2024 1 1, mkdate 2024 1 10);
                 (mkdate 2024 1 5, mkdate 2024 1 5);
                 (mkdate 2025 3 1, mkdate 2025 3 20)] in
  let w := rollingWindow (computeStayAnalysis ranges 2024) in
  exists ws we, windowStart w = Some ws /\ windowEnd w = Some we
                /\ ws <= we /\ we - ws <= 364
                /\ maxDays w = covered_count ranges ws we
                /\ 1 <= maxDays w.
Proof.
  intros ranges w.
  assert (H : exists s e, In (s, e) ranges /\ s <= e).
  { exists (mkdate 2024 1 1), (mkdate 2024 1 10).
    split; [left; reflexivity|vm_compute; discriminate]. }
  destruct (proj1 (proj2 (C9_window_bounds ranges 2024 H)))
    as (ws & we & A & B & _ & _ & _ & _ & _ & _ & C & E & _ & G & F).
  exists ws, we. repeat split; assumption.
Defined.

(** C10. [totalDaysInYear] counts a day once per range that contains it:
    two copies of a valid range inside the target year give twice the
    single-copy total, which is twice the length of the range, while the
    rolling maximum is that of one copy; two copies of the whole of 2024
    give 732 days, more than the year has. *)
Theorem C10_total_counts_overlaps_twice (s e : date) (Y : Z) :
  s <= e -> mkdate Y 1 1 <= s -> e <= mkdate Y 12 31 ->
  let one := computeStayAnalysis [(s, e)] Y in
  let two := computeStayAnalysis [(s, e); (s, e)] Y in
  totalDaysInYear one = (e - s) + 1
  /\ totalDaysInYear two = 2 * totalDaysInYear one
  /\ maxDays (rollingWindow two) = maxDays (rollingWindow one)
  /\ (let year := (mkdate 2024 1 1, mkdate 2024 12 31) in
      totalDaysInYear (computeStayAnalysis [year; year] 2024) = 732
      /\ mkdate 2024 12 31 - mkdate 2024 1 1 + 1 = 366
      /\ maxDays (rollingWindow (computeStayAnalysis [year; year] 2024)) = 365).
Proof.
  intros Hv Hs He one two. subst one two.
  pose proof (proj2 (is_valid_true s e) Hv) as V.
  assert (Hc : annual_contribution Y s e = e - s + 1).
  { unfold annual_contribution. rewrite Z.gtb_ltb.
    destruct (Z.ltb_spec (Z.min e (mkdate Y 12 31)) (Z.max s (mkdate Y 1 1))); lia. }
  split.
  { rewrite total_days_of. cbn [map]. rewrite sum_cons.
    rewrite (days_of_valid Y s e Hv), Hc. unfold sum. simpl. lia. }
  split.
  { rewrite !total_days_of. cbn [map]. rewrite !sum_cons.
    change (sum []) with 0. lia. }
  split.
  { rewrite !rolling_window_of. cbn [filter]. rewrite V. f_equal.
    apply rolling_window_ext. intros d. rewrite !covered_cons. tauto. }
  vm_compute. repeat split.
Qed.

Lemma C10_total_counts_overlaps_twice_witness :
  let r := (mkdate 2024 3 1, mkdate 2024 3 31) in
  totalDaysInYear (computeStayAnalysis [r; r] 2024)
  = 2 * totalDaysInYear (computeStayAnalysis [r] 2024).
Proof.
  intros r.
  exact (proj1 (proj2 (C10_total_counts_overlaps_twice (fst r) (snd r) 2024
           ltac:(vm_compute; discriminate) ltac:(vm_compute; discriminate)
           ltac:(vm_compute; discriminate)))).
Defined.

(** * Further properties of the code *)

(** ** The calendar *)

Lemma year_end_succ Y : year_start (Y + 1) = year_end Y + 1.
Proof.
  unfold year_start, year_end, mkdate, days_before_year, days_before_month,
    is_leap.
  replace (Y + 1 - 1) with Y by lia.
  change (nth (Z.to_nat (1 - 1)) DAYS_BEFORE_MONTH 0) with 0.
  change (nth (Z.to_nat (12 - 1)) DAYS_BEFORE_MONTH 0) with 334.
  change (2 <? 1) with false. change (2 <? 12) with true. cbn [andb].
  destruct (Y mod 4 =? 0) eqn:E4; destruct (Y mod 100 =? 0) eqn:E100;
    destruct (Y mod 400 =? 0) eqn:E400; cbn [andb orb negb];
    rewrite ?Z.eqb_eq, ?Z.eqb_neq in *; Z.div_mod_to_equations; lia.
Qed.

Lemma year_length Y :
  year_end Y - year_start Y + 1 = if is_leap Y then 366 else 365.
Proof.
  unfold year_start, year_end, mkdate, days_before_month.
  change (nth (Z.to_nat (1 - 1)) DAYS_BEFORE_MONTH 0) with 0.
  change (nth (Z.to_nat (12 - 1)) DAYS_BEFORE_MONTH 0) with 334.
  change (2 <? 1) with false. change (2 <? 12) with true. cbn [andb].
  destruct (is_leap Y); lia.
Qed.

Lemma year_end_le Y : forall n, year_end Y <= year_end (Y + Z.of_nat n).
Proof.
  induction n as [|n IH].
  - replace (Y + Z.of_nat 0) with Y by lia. lia.
  - replace (Y + Z.of_nat (S n)) with (Y + Z.of_nat n + 1) by lia.
    pose proof (year_end_succ (Y + Z.of_nat n)).
    pose proof (year_length (Y + Z.of_nat n + 1)).
    destruct (is_leap (Y + Z.of_nat n + 1)); lia.
Qed.

(** ** The annual clip *)

Lemma annual_contribution_clip Y s e :
  annual_contribution Y s e
  = Z.max 0 (Z.min e (year_end Y) - Z.max s (year_start Y) + 1).
Proof.
  unfold annual_contribution, year_start, year_end. rewrite Z.gtb_ltb.
  destruct (Z.ltb_spec (Z.min e (mkdate Y 12 31)) (Z.max s (mkdate Y 1 1))); lia.
Qed.

Lemma expand_from_NoDup s : forall count d, NoDup (expand_from s d count).
Proof.
  induction count as [|c IH]; intros d; simpl; constructor.
  - rewrite In_expand_from. lia.
  - apply IH.
Qed.

Lemma expand_NoDup r : NoDup (expand r).
Proof. destruct r as [s e]. apply expand_from_NoDup. Qed.

Lemma expand_from_length s : forall count d, length (expand_from s d count) = count.
Proof. induction count; intros d; simpl; [reflexivity|now rewrite IHcount]. Qed.

Lemma expand_length (s e : date) :
  Z.of_nat (length (expand (s, e))) = Z.max 0 (e - s + 1).
Proof. unfold expand. rewrite expand_from_length. lia. Qed.

(** The days of [s .. e] inside [lo .. hi] are those of the clipped
    interval. *)
Lemma expand_filter_length (s e lo hi : date) :
  Z.of_nat (length (filter (in_span lo hi) (expand (s, e))))
  = Z.max 0 (Z.min e hi - Z.max s lo + 1).
Proof.
  rewrite <- (expand_length (Z.max s lo) (Z.min e hi)). f_equal.
  apply Permutation_length, NoDup_Permutation.
  - apply NoDup_filter, expand_NoDup.
  - apply expand_NoDup.
  - intros x. rewrite filter_In, !In_expand. unfold in_span.
    rewrite andb_true_iff, !Z.leb_le. lia.
Qed.

Lemma rows_from_In Y ranges : forall i rw,
  In rw (rows_from Y i ranges) -> exists j r, In r ranges /\ rw = row_of Y j r.
Proof.
  induction ranges as [|x l IH]; intros i rw H; simpl in H; [contradiction|].
  destruct H as [<-|H].
  - exists i, x. split; [now left|reflexivity].
  - destruct (IH _ _ H) as (j & r & Hin & E). exists j, r.
    split; [now right|assumption].
Qed.

Lemma sum_map_add {A} (f g : A -> Z) l :
  sum (map (fun x => f x + g x) l) = sum (map f l) + sum (map g l).
Proof.
  induction l as [|x l IH]; simpl; [reflexivity|].
  rewrite !sum_cons, IH. lia.
Qed.

Lemma sum_map_zero {A} (l : list A) : sum (map (fun _ => 0) l) = 0.
Proof. induction l as [|x l IH]; simpl; [reflexivity|]. now rewrite sum_cons, IH. Qed.

Lemma sum_exchange {A B} (f : A -> B -> Z) la lb :
  sum (map (fun a => sum (map (f a) lb)) la)
  = sum (map (fun b => sum (map (fun a => f a b) la)) lb).
Proof.
  induction lb as [|b lb IH]; simpl.
  - change (sum []) with 0. apply sum_map_zero.
  - rewrite sum_cons, <- IH, <- sum_map_add. f_equal.
    apply map_ext. intros a. now rewrite sum_cons.
Qed.

(** Over consecutive years that contain the stay, the clips add up to the
    stay. *)
Lemma clip_years (s e : date) : forall n Y,
  s <= e ->
  sum (map (fun y => annual_contribution y s e) (years_from Y (S n)))
  = Z.max 0 (Z.min e (year_end (Y + Z.of_nat n)) - Z.max s (year_start Y) + 1).
Proof.
  induction n as [|n IH]; intros Y Hv.
  - simpl. rewrite sum_cons. change (sum []) with 0.
    rewrite annual_contribution_clip. replace (Y + 0) with Y by lia. lia.
  - change (years_from Y (S (S n))) with (Y :: years_from (Y + 1) (S n)).
    cbn [map]. rewrite sum_cons, (IH (Y + 1) Hv), annual_contribution_clip.
    replace (Y + 1 + Z.of_nat n) with (Y + Z.of_nat (S n)) by lia.
    pose proof (year_end_succ Y). pose proof (year_length Y).
    pose proof (year_end_le (Y + 1) n).
    pose proof (year_length (Y + 1)).
    replace (Y + 1 + Z.of_nat n) with (Y + Z.of_nat (S n)) in * by lia.
    destruct (is_leap Y); destruct (is_leap (Y + 1)); lia.
Qed.

Lemma errors_from_iff ranges : forall i x,
  In x (errors_from i ranges)
  <-> exists k r, nth_error ranges k = Some r /\ is_valid r = false
                  /\ x = i + Z.of_nat k + 1.
Proof.
  induction ranges as [|r l IH]; intros i x; simpl.
  - split; [contradiction|]. intros (k & r & H & _). destruct k; discriminate.
  - assert (T : In x (errors_from (i + 1) l) <->
                exists k r', nth_error (r :: l) (S k) = Some r'
                             /\ is_valid r' = false /\ x = i + Z.of_nat (S k) + 1).
    { rewrite IH. split; intros (k & r' & A & B & C); exists k, r';
        (split; [exact A|split; [exact B|lia]]). }
    destruct (is_valid r) eqn:V; simpl; rewrite ?T; split.
    + intros (k & r' & A & B & C). exists (S k), r'. tauto.
    + intros ([|k] & r' & A & B & C).
      * simpl in A. inversion A; subst. congruence.
      * exists k, r'. tauto.
    + intros [E|(k & r' & A & B & C)].
      * exists 0%nat, r. simpl. repeat split; [assumption|lia].
      * exists (S k), r'. tauto.
    + intros ([|k] & r' & A & B & C).
      * left. simpl in C. lia.
      * right. exists k, r'. tauto.
Qed.

Lemma errors_from_length ranges : forall i,
  (length (errors_from i ranges) + length (filter is_valid ranges)
   = length ranges)%nat.
Proof.
  induction ranges as [|r l IH]; intros i; simpl; [reflexivity|].
  specialize (IH (i + 1)). destruct (is_valid r); simpl; lia.
Qed.

(** X1. The table has one row per range, in input order, the row at
    position [k] labelled [k + 1] and carrying the range as entered; an
    error is reported for exactly the ranges with [end < start], under their
    label; the ranges kept for the rolling computation are the others, and
    the two groups together are all the ranges. *)
Theorem X1_rows_labels_errors (ranges : list (date * date)) (Y : Z) :
  let a := computeStayAnalysis ranges Y in
  let valid := valid_intervals (run_loop Y init_state 0 ranges) in
  length (perRange a) = length ranges
  /\ (forall k r, nth_error ranges k = Some r ->
        exists rw, nth_error (perRange a) k = Some rw
                   /\ Range rw = Z.of_nat k + 1 /\ Original_Stay rw = r)
  /\ (forall x, In x (errors a) <->
        exists k s e, nth_error ranges k = Some (s, e) /\ e < s
                      /\ x = Z.of_nat k + 1)
  /\ (forall s e, In (s, e) valid <-> In (s, e) ranges /\ s <= e)
  /\ (length (errors a) + length valid = length ranges)%nat.
Proof.
  intros a valid. subst a valid.
  rewrite analysis_unfold, run_loop_unfold. simpl.
  split; [apply rows_from_length|]. split.
  { intros k r H. exists (row_of Y (0 + Z.of_nat k) r).
    split; [now apply rows_from_nth|].
    unfold row_of. destruct (is_valid r); simpl; split; (lia || reflexivity). }
  split.
  { intros x. rewrite errors_from_iff. split.
    - intros (k & [s e] & A & B & C). exists k, s, e.
      apply is_valid_false in B. repeat split; (assumption || lia).
    - intros (k & s & e & A & B & C). exists k, (s, e).
      apply is_valid_false in B. repeat split; (assumption || lia). }
  split.
  { intros s e. rewrite filter_In, is_valid_true. tauto. }
  apply errors_from_length.
Qed.

Lemma longest_of_upper l x : In x l -> x <= longest_of l.
Proof. apply fold_max_upper. Qed.

Lemma longest_stay_upper ranges Y (s e : date) :
  In (s, e) ranges -> s <= e ->
  e - s + 1 <= longestSingleStay (computeStayAnalysis ranges Y).
Proof.
  intros Hin Hv. rewrite longest_stay_of. apply longest_of_upper.
  change (e - s + 1) with (stay_length_of (s, e)). apply in_map.
  apply filter_In. split; [assumption|now apply is_valid_true].
Qed.

Lemma longest_stay_attained ranges Y :
  longestSingleStay (computeStayAnalysis ranges Y) = 0
  \/ exists s e, In (s, e) ranges /\ s <= e
       /\ longestSingleStay (computeStayAnalysis ranges Y) = e - s + 1.
Proof.
  rewrite longest_stay_of.
  set (lens := map stay_length_of (filter is_valid ranges)).
  destruct (fold_max_attained lens) as [E|E]; [now left|right].
  unfold lens in E at 2. apply in_map_iff in E.
  destruct E as ([s e] & E1 & E2). apply filter_In in E2.
  destruct E2 as [Hin Hv]. apply is_valid_true in Hv.
  exists s, e. repeat split; try assumption.
  unfold longest_of. rewrite <- E1. reflexivity.
Qed.

(** X2. The longest single stay is the largest inclusive length among the
    valid ranges: no valid range is longer, some valid range has that
    length when there is one, and it is 0 exactly when no range is valid. *)
Theorem X2_longest_stay_is_maximum (ranges : list (date * date)) (Y : Z) :
  let L := longestSingleStay (computeStayAnalysis ranges Y) in
  0 <= L
  /\ (forall s e, In (s, e) ranges -> s <= e -> e - s + 1 <= L)
  /\ (L = 0 \/ exists s e, In (s, e) ranges /\ s <= e /\ L = e - s + 1)
  /\ (L = 0 <-> forall s e, In (s, e) ranges -> e < s).
Proof.
  intros L. subst L.
  pose proof (longest_stay_upper ranges Y) as Hup.
  pose proof (longest_stay_attained ranges Y) as Hatt.
  split; [rewrite longest_stay_of; apply longest_of_nonneg|].
  split; [assumption|]. split; [assumption|]. split.
  - intros E s e Hin. destruct (Z.lt_ge_cases e s) as [|Hv]; [assumption|].
    specialize (Hup s e Hin Hv). lia.
  - intros Hall. destruct Hatt as [E|(s & e & Hin & Hv & _)]; [assumption|].
    specialize (Hall s e Hin). lia.
Qed.

(** X3. In every row the annual days lie between 0 and the stay length and
    never exceed the length of the target year, 366 days in a leap year and
    365 otherwise; the annual total lies between 0 and the sum of the stay
    lengths. *)
Theorem X3_annual_days_bounds (ranges : list (date * date)) (Y : Z) :
  let a := computeStayAnalysis ranges Y in
  Forall (fun rw => 0 <= Days_in_year rw <= Stay_Length rw
                    /\ Days_in_year rw <= (if is_leap Y then 366 else 365))
         (perRange a)
  /\ 0 <= totalDaysInYear a <= sum (map Stay_Length (perRange a)).
Proof.
  intros a. subst a.
  assert (F : Forall (fun rw => 0 <= Days_in_year rw <= Stay_Length rw
                    /\ Days_in_year rw <= (if is_leap Y then 366 else 365))
                (perRange (computeStayAnalysis ranges Y))).
  { rewrite analysis_unfold. simpl. apply Forall_forall. intros rw H.
    apply rows_from_In in H. destruct H as (j & [s e] & _ & ->).
    unfold row_of. destruct (is_valid (s, e)) eqn:V; simpl;
      [|destruct (is_leap Y); lia].
    apply is_valid_true in V. rewrite annual_contribution_clip.
    unfold stay_length_of. simpl. pose proof (year_length Y).
    destruct (is_leap Y); lia. }
  split; [assumption|].
  rewrite analysis_unfold in *. simpl in *. unfold total_days.
  induction (rows_from Y 0 ranges) as [|rw l IH]; simpl.
  - change (sum []) with 0. lia.
  - inversion F; subst. rewrite !sum_cons. specialize (IH H2). lia.
Qed.

Lemma valid_intervals_run ranges Y :
  valid_intervals (run_loop Y init_state 0 ranges) = filter is_valid ranges.
Proof. now rewrite run_loop_unfold. Qed.

Lemma clip_sum_entries (lo hi : date) I :
  sum (map (fun r => Z.max 0 (Z.min (snd r) hi - Z.max (fst r) lo + 1)) I)
  = Z.of_nat (length (filter (in_span lo hi) (collect_days I))).
Proof.
  unfold collect_days. induction I as [|[s e] I IH]; simpl; [reflexivity|].
  rewrite sum_cons, IH, filter_app, length_app, Nat2Z.inj_add.
  now rewrite <- (expand_filter_length s e lo hi).
Qed.

Lemma total_entries ranges Y :
  totalDaysInYear (computeStayAnalysis ranges Y)
  = Z.of_nat (length (filter (in_span (year_start Y) (year_end Y))
                             (collect_days (filter is_valid ranges)))).
Proof.
  rewrite total_days_of, sum_days_valid, <- clip_sum_entries. f_equal.
  apply map_ext. intros r. apply annual_contribution_clip.
Qed.

(** X4. The annual total is the number of entries of [all_days], as
    collected before duplicates are removed, that fall inside the target
    year; a valid range's own annual days are the number of its days that
    fall inside the year. *)
Theorem X4_annual_total_counts_collected_days (ranges : list (date * date))
    (Y : Z) :
  let a := computeStayAnalysis ranges Y in
  let in_year := in_span (year_start Y) (year_end Y) in
  totalDaysInYear a
  = Z.of_nat (length (filter in_year
       (collect_days (valid_intervals (run_loop Y init_state 0 ranges)))))
  /\ (forall k s e, nth_error ranges k = Some (s, e) -> s <= e ->
        exists rw, nth_error (perRange a) k = Some rw
                   /\ Days_in_year rw
                      = Z.of_nat (length (filter in_year (expand (s, e))))).
Proof.
  intros a in_year. subst a in_year. split.
  - rewrite valid_intervals_run. apply total_entries.
  - intros k s e Hk Hv. rewrite analysis_unfold. cbn [perRange].
    exists (row_of Y (0 + Z.of_nat k) (s, e)).
    split; [now apply rows_from_nth|].
    unfold row_of. rewrite (proj2 (is_valid_true s e) Hv).
    cbn [Days_in_year fst snd].
    now rewrite expand_filter_length, annual_contribution_clip.
Qed.

(** X5. When every valid range lies inside the years [Y .. Y + n], the
    annual totals of those years add up to the sum of the stay lengths of
    the valid ranges: a stay across New Year is split between the years with
    no day lost and none counted twice. *)
Theorem X5_annual_totals_partition_stays (ranges : list (date * date))
    (Y : Z) (n : nat) :
  (forall s e, In (s, e) ranges -> s <= e ->
     year_start Y <= s /\ e <= year_end (Y + Z.of_nat n)) ->
  sum (map (fun y => totalDaysInYear (computeStayAnalysis ranges y))
           (years_from Y (S n)))
  = sum (map Stay_Length (perRange (computeStayAnalysis ranges Y))).
Proof.
  intros H.
  rewrite (map_ext _ (fun y => sum (map (fun r => days_of y r) ranges)))
    by (intros y; apply total_days_of).
  rewrite (sum_exchange (fun y r => days_of y r)).
  rewrite analysis_unfold. cbn [perRange].
  assert (G : forall i, map Stay_Length (rows_from Y i ranges)
                        = map (fun r => if is_valid r then stay_length_of r else 0)
                              ranges).
  { induction ranges as [|r l IH]; intros i; simpl; [reflexivity|].
    rewrite IH by (intros s e Hin; apply H; now right).
    f_equal. unfold row_of. now destruct (is_valid r). }
  rewrite G. f_equal. apply map_ext_in. intros [s e] Hin.
  destruct (is_valid (s, e)) eqn:V.
  - apply is_valid_true in V. destruct (H s e Hin V) as [Hs He].
    rewrite (map_ext (fun y => days_of y (s, e))
                     (fun y => annual_contribution y s e))
      by (intros y; now apply days_of_valid).
    rewrite (clip_years s e n Y V).
    unfold stay_length_of. cbn [fst snd]. lia.
  - rewrite (map_ext (fun y => days_of y (s, e)) (fun _ => 0))
      by (intros y; unfold days_of; now rewrite V).
    apply sum_map_zero.
Qed.

Lemma X5_annual_totals_partition_stays_witness :
  let r := (mkdate 2024 12 20, mkdate 2025 1 10) in
  sum (map (fun y => totalDaysInYear (computeStayAnalysis [r] y))
           (years_from 2024 2))
  = sum (map Stay_Length (perRange (computeStayAnalysis [r] 2024))).
Proof.
  intros r.
  refine (X5_annual_totals_partition_stays [r] 2024 1 _).
  intros s e [E|[]] _. inversion E; subst. vm_compute.
  split; discriminate.
Defined.

Lemma distinct_days_le_total ranges Y :
  count_in (covered_days (valid_intervals (run_loop Y init_state 0 ranges)))
           (year_start Y) (year_end Y)
  <= totalDaysInYear (computeStayAnalysis ranges Y).
Proof.
  rewrite valid_intervals_run, total_entries. unfold count_in. apply inj_le.
  apply NoDup_incl_length.
  - apply NoDup_filter, strictly_sorted_NoDup, covered_days_sorted.
  - intros x Hx. apply filter_In in Hx. apply filter_In.
    split; [|tauto]. destruct Hx as [Hx _].
    unfold covered_days in Hx. now rewrite In_sorted_set in Hx.
Qed.

(** X6. The annual total is never smaller than the number of distinct
    covered days of the target year: overlapping ranges can only raise
    it. *)
Theorem X6_annual_total_at_least_distinct_days (ranges : list (date * date))
    (Y : Z) :
  let D := covered_days (valid_intervals (run_loop Y init_state 0 ranges)) in
  count_in D (year_start Y) (year_end Y)
  <= totalDaysInYear (computeStayAnalysis ranges Y).
Proof. intros D. subst D. apply distinct_days_le_total. Qed.

Lemma collect_days_NoDup I : ForallOrdPairs apart I -> NoDup (collect_days I).
Proof.
  unfold collect_days. induction 1 as [|r I Hr HI IH]; simpl; [constructor|].
  apply NoDup_app; [apply expand_NoDup|assumption|].
  intros x Hx Hx'. destruct r as [s e]. apply In_expand in Hx.
  apply in_flat_map in Hx'. destruct Hx' as ([s' e'] & Hin & Hx').
  apply In_expand in Hx'. rewrite Forall_forall in Hr.
  specialize (Hr _ Hin). unfold apart in Hr. simpl in Hr. lia.
Qed.

(** X7. When no two valid ranges share a day, the annual total is exactly
    the number of distinct covered days of the target year. *)
Theorem X7_annual_total_of_disjoint_ranges (ranges : list (date * date))
    (Y : Z) :
  ForallOrdPairs apart (valid_intervals (run_loop Y init_state 0 ranges)) ->
  totalDaysInYear (computeStayAnalysis ranges Y)
  = count_in (covered_days (valid_intervals (run_loop Y init_state 0 ranges)))
             (year_start Y) (year_end Y).
Proof.
  rewrite valid_intervals_run. intros H.
  rewrite total_entries. unfold count_in. f_equal.
  apply Permutation_length, filter_Permutation, NoDup_Permutation.
  - now apply collect_days_NoDup.
  - apply strictly_sorted_NoDup, covered_days_sorted.
  - intros x. unfold covered_days. now rewrite In_sorted_set.
Qed.

Lemma X7_annual_total_of_disjoint_ranges_witness :
  let ranges := [(mkdate 2024 12 20, mkdate 2025 1 10);
                 (mkdate 2024 3 9, mkdate 2024 3 1);
                 (mkdate 2024 1 1, mkdate 2024 1 10)] in
  totalDaysInYear (computeStayAnalysis ranges 2024)
  = count_in (covered_days (valid_intervals (run_loop 2024 init_state 0 ranges)))
             (year_start 2024) (year_end 2024).
Proof.
  intros ranges.
  refine (X7_annual_total_of_disjoint_ranges ranges 2024 _).
  vm_compute valid_intervals.
  apply FOP_cons; [|apply FOP_cons; [apply Forall_nil|apply FOP_nil]].
  apply Forall_cons; [|apply Forall_nil].
  right. vm_compute. reflexivity.
Defined.

(** ** More on the rolling window *)

(** Distinct ascending days are at least as far apart as their positions. *)
Lemma strictly_sorted_gap D : StrictlySorted D ->
  forall b a, (a <= b)%nat -> (b < length D)%nat ->
  Z.of_nat b - Z.of_nat a <= at_ D b - at_ D a.
Proof.
  intros HD. induction b as [|b IH]; intros a Hab Hb.
  - replace a with 0%nat by lia. lia.
  - destruct (Nat.eq_dec a (S b)) as [->|Hne]; [lia|].
    specialize (IH a ltac:(lia) ltac:(lia)).
    pose proof (strictly_sorted_at D HD b (S b) ltac:(lia) Hb). lia.
Qed.

Lemma filter_length_le {A} (f g : A -> bool) l :
  (forall x, In x l -> f x = true -> g x = true) ->
  (length (filter f l) <= length (filter g l))%nat.
Proof.
  induction l as [|x l IH]; intros H; simpl; [lia|].
  specialize (IH (fun y Hy => H y (or_intror Hy))).
  destruct (f x) eqn:Ef.
  - rewrite (H x (or_introl eq_refl) Ef). simpl. lia.
  - destruct (g x); simpl; lia.
Qed.

Lemma count_in_widen D lo hi lo' hi' :
  lo' <= lo -> hi <= hi' -> count_in D lo hi <= count_in D lo' hi'.
Proof.
  intros H1 H2. unfold count_in. apply inj_le, filter_length_le.
  intros x _. unfold in_span. rewrite !andb_true_iff, !Z.leb_le. lia.
Qed.

Lemma count_in_nonneg D lo hi : 0 <= count_in D lo hi.
Proof. unfold count_in. lia. Qed.

Lemma least_exists (l : list Z) :
  l <> [] -> exists x, In x l /\ forall y, In y l -> x <= y.
Proof.
  induction l as [|a l IH]; [congruence|]. intros _.
  destruct l as [|b l].
  - exists a. split; [now left|]. intros y [<-|[]]. lia.
  - destruct (IH ltac:(discriminate)) as (x & Hx & Hmin).
    destruct (Z.le_ge_cases a x).
    + exists a. split; [now left|]. intros y [<-|Hy]; [lia|].
      specialize (Hmin y Hy). lia.
    + exists x. split; [now right|]. intros y [<-|Hy]; [lia|now apply Hmin].
Qed.

Lemma greatest_exists (l : list Z) :
  l <> [] -> exists x, In x l /\ forall y, In y l -> y <= x.
Proof.
  induction l as [|a l IH]; [congruence|]. intros _.
  destruct l as [|b l].
  - exists a. split; [now left|]. intros y [<-|[]]. lia.
  - destruct (IH ltac:(discriminate)) as (x & Hx & Hmax).
    destruct (Z.le_ge_cases x a).
    + exists a. split; [now left|]. intros y [<-|Hy]; [lia|].
      specialize (Hmax y Hy). lia.
    + exists x. split; [now right|]. intros y [<-|Hy]; [lia|now apply Hmax].
Qed.

(** The days of a strictly ascending list inside a span sit at
    consecutive positions [i .. j]. *)
Lemma span_indices D lo hi : StrictlySorted D ->
  count_in D lo hi = 0
  \/ exists i j, (i <= j < length D)%nat
       /\ lo <= at_ D i /\ at_ D j <= hi
       /\ (forall k, (k < length D)%nat -> lo <= at_ D k <= hi -> (i <= k <= j)%nat)
       /\ count_in D lo hi = Z.of_nat j - Z.of_nat i + 1.
Proof.
  intros HD.
  destruct (filter (in_span lo hi) D) as [|z L] eqn:EL.
  - left. unfold count_in. now rewrite EL.
  - right.
    assert (Hne : filter (in_span lo hi) D <> []) by (rewrite EL; discriminate).
    destruct (least_exists _ Hne) as (x & Hx & Hmin).
    destruct (greatest_exists _ Hne) as (y & Hy & Hmax).
    assert (Hspan : forall v, In v (filter (in_span lo hi) D)
                              <-> In v D /\ lo <= v <= hi).
    { intros v. rewrite filter_In. unfold in_span.
      rewrite andb_true_iff, !Z.leb_le. tauto. }
    apply Hspan in Hx, Hy. destruct Hx as [HxD Hxs], Hy as [HyD Hys].
    apply In_at in HxD, HyD.
    destruct HxD as (i & Hi & Ei), HyD as (j & Hj & Ej).
    assert (Hxy : x <= y) by (apply Hmax, Hspan; split;
                              [apply In_at; eauto|assumption]).
    assert (Hij : (i <= j)%nat)
      by (apply (strictly_sorted_at_inv D HD); try assumption; lia).
    exists i, j. split; [lia|]. split; [lia|]. split; [lia|]. split.
    + intros k Hk Hks.
      assert (Hin : In (at_ D k) (filter (in_span lo hi) D))
        by (apply Hspan; split; [apply In_at; eauto|assumption]).
      pose proof (Hmin _ Hin). pose proof (Hmax _ Hin).
      split; apply (strictly_sorted_at_inv D HD); try assumption; lia.
    + rewrite <- (count_window D HD i j Hij Hj). unfold count_in. do 2 f_equal.
      apply filter_ext_in. intros v Hv.
      destruct (in_span lo hi v) eqn:E1.
      * assert (Hin : In v (filter (in_span lo hi) D))
          by (apply filter_In; tauto).
        pose proof (Hmin _ Hin). pose proof (Hmax _ Hin).
        symmetry. unfold in_span. rewrite andb_true_iff, !Z.leb_le. lia.
      * destruct (in_span (at_ D i) (at_ D j) v) eqn:E2; [|reflexivity].
        unfold in_span in E1, E2. rewrite andb_true_iff, !Z.leb_le in E2.
        rewrite andb_false_iff, !Z.leb_gt in E1. lia.
Qed.

(** No span of 365 days holds more days than the scan reports. *)
Lemma scan_span_upper D lo hi : StrictlySorted D ->
  hi - lo <= 364 -> count_in D lo hi <= max_days_365 (scan D).
Proof.
  intros HD Hspan.
  destruct (scan_correct D HD) as (Hnn & Hup & _).
  destruct (span_indices D lo hi HD) as [E|(i & j & Hij & Hi & Hj & _ & E)].
  - rewrite E. assumption.
  - rewrite E. apply Hup; [assumption|lia].
Qed.

Lemma sorted_length l : length (sorted l) = length l.
Proof.
  assert (I : forall x t, length (insert x t) = S (length t)).
  { intros x t. induction t as [|y t IH]; simpl; [reflexivity|].
    destruct (x <=? y); simpl; [reflexivity|now rewrite IH]. }
  unfold sorted. induction l as [|x l IH]; simpl; [reflexivity|].
  now rewrite I, IH.
Qed.

Lemma covered_days_length I :
  (length (covered_days I) <= length (collect_days I))%nat.
Proof.
  unfold covered_days. rewrite sorted_length. unfold set.
  apply NoDup_incl_length; [apply NoDup_nodup|].
  intros x Hx. now apply nodup_In in Hx.
Qed.

Lemma collect_days_length I :
  Z.of_nat (length (collect_days I))
  = sum (map (fun r => Z.max 0 (stay_length_of r)) I).
Proof.
  unfold collect_days. induction I as [|[s e] I IH]; cbn [flat_map map];
    [reflexivity|].
  rewrite length_app, Nat2Z.inj_add, sum_cons, IH, expand_length. reflexivity.
Qed.

(** A span all of whose days are covered holds that many days. *)
Lemma count_in_full D (lo hi : date) :
  (forall d, lo <= d <= hi -> In d D) -> hi - lo + 1 <= count_in D lo hi.
Proof.
  intros H. destruct (Z.lt_ge_cases hi lo) as [Hlt|Hge].
  - pose proof (count_in_nonneg D lo hi). lia.
  - replace (hi - lo + 1) with (Z.max 0 (hi - lo + 1)) by lia.
    rewrite <- (expand_length lo hi). unfold count_in. apply inj_le.
    apply NoDup_incl_length; [apply expand_NoDup|].
    intros x Hx. apply In_expand in Hx. apply filter_In.
    split; [now apply H|]. unfold in_span. rewrite andb_true_iff, !Z.leb_le. lia.
Qed.

Lemma scan_bounds D : StrictlySorted D ->
  0 <= max_days_365 (scan D) <= 365
  /\ max_days_365 (scan D) <= Z.of_nat (length D).
Proof.
  intros HD. destruct (scan_correct D HD) as (Hnn & _ & H0 & Hpos & _).
  destruct (length D) eqn:En.
  - rewrite H0 by reflexivity. lia.
  - destruct (Hpos ltac:(lia)) as (A & B & C).
    pose proof (strictly_sorted_gap D HD (max_j (scan D)) (max_i (scan D))
                  ltac:(lia) ltac:(lia)). lia.
Qed.

Lemma rolling_of_run ranges Y :
  rollingWindow (computeStayAnalysis ranges Y)
  = rolling_of_days (covered_days (valid_intervals (run_loop Y init_state 0 ranges))).
Proof. now rewrite rolling_window_of, valid_intervals_run, rolling_window_days. Qed.

Lemma rolling_of_days_cons D : (0 < length D)%nat ->
  rolling_of_days D = mkRolling (max_days_365 (scan D))
                                (Some (at_ D (max_i (scan D))))
                                (Some (at_ D (max_j (scan D)))).
Proof. destruct D; simpl; [lia|reflexivity]. Qed.

Lemma rows_from_stay Y ranges : forall i,
  map Stay_Length (rows_from Y i ranges)
  = map (fun r => if is_valid r then stay_length_of r else 0) ranges.
Proof.
  induction ranges as [|r l IH]; intros i; simpl; [reflexivity|].
  rewrite IH. f_equal. unfold row_of. now destruct (is_valid r).
Qed.

Lemma sum_stay_valid ranges :
  sum (map (fun r => if is_valid r then stay_length_of r else 0) ranges)
  = sum (map (fun r => Z.max 0 (stay_length_of r)) (filter is_valid ranges)).
Proof.
  induction ranges as [|[s e] l IH]; simpl; [reflexivity|].
  rewrite sum_cons, IH. destruct (is_valid (s, e)) eqn:V; simpl; [|lia].
  rewrite sum_cons. apply is_valid_true in V. unfold stay_length_of. simpl. lia.
Qed.

(* The densest span in terms of the entries of the list the scan runs on. *)
Lemma densest_span_entries (ranges : list (date * date)) (Y : Z) :
  let w := rollingWindow (computeStayAnalysis ranges Y) in
  let D := covered_days (valid_intervals (run_loop Y init_state 0 ranges)) in
  (forall lo hi, hi - lo <= 364 -> count_in D lo hi <= maxDays w)
  /\ match windowStart w with
     | Some ws => maxDays w = count_in D ws (ws + 364)
     | None => maxDays w = 0
     end.
Proof.
  intros w D. subst w. rewrite rolling_of_run. fold D.
  pose proof (covered_days_sorted
                (valid_intervals (run_loop Y init_state 0 ranges))) as HD.
  fold D in HD. split.
  - intros lo hi H. rewrite maxDays_rolling_of_days. now apply scan_span_upper.
  - destruct (length D) eqn:En.
    + destruct D; [reflexivity|discriminate].
    + rewrite rolling_of_days_cons by lia. simpl.
      destruct (scan_correct D HD) as (_ & _ & _ & Hpos & _).
      destruct (Hpos ltac:(lia)) as (A & B & C). rewrite En in A.
      apply Z.le_antisymm.
      * rewrite C, <- (count_window D HD _ _ (proj1 A)) by (rewrite En; lia).
        apply count_in_widen; lia.
      * apply scan_span_upper; [assumption|lia].
Qed.

(** X8. The rolling maximum is the densest 365-day span: no span of 365
    consecutive calendar days, wherever it starts, holds more covered days
    (days of some input range, each counted once) than [maxDays], and the
    span that starts at the reported [windowStart] holds exactly [maxDays]
    of them. *)
Theorem X8_rolling_maximum_is_densest_span (ranges : list (date * date))
    (Y : Z) :
  let w := rollingWindow (computeStayAnalysis ranges Y) in
  (forall lo hi, hi - lo <= 364 -> covered_count ranges lo hi <= maxDays w)
  /\ match windowStart w with
     | Some ws => maxDays w = covered_count ranges ws (ws + 364)
     | None => maxDays w = 0
     end.
Proof.
  intros w. destruct (densest_span_entries ranges Y) as [Hup Hatt].
  fold w in Hup, Hatt. split.
  - intros lo hi H. rewrite (covered_count_run ranges Y). now apply Hup.
  - destruct (windowStart w) as [ws|]; [|assumption].
    now rewrite (covered_count_run ranges Y).
Qed.

(** X9. The rolling maximum lies between 0 and 365, is at most the number
    of distinct covered days, and that number is at most the sum of the stay
    lengths shown in the table. *)
Theorem X9_rolling_maximum_bounds (ranges : list (date * date)) (Y : Z) :
  let a := computeStayAnalysis ranges Y in
  let D := covered_days (valid_intervals (run_loop Y init_state 0 ranges)) in
  0 <= maxDays (rollingWindow a) <= 365
  /\ maxDays (rollingWindow a) <= Z.of_nat (length D)
  /\ Z.of_nat (length D) <= sum (map Stay_Length (perRange a)).
Proof.
  intros a D. subst a. rewrite rolling_of_run. fold D.
  pose proof (covered_days_sorted
                (valid_intervals (run_loop Y init_state 0 ranges))) as HD.
  fold D in HD. rewrite maxDays_rolling_of_days.
  destruct (scan_bounds D HD) as (B1 & B2).
  split; [lia|]. split; [lia|].
  rewrite analysis_unfold. cbn [perRange].
  rewrite rows_from_stay, sum_stay_valid, <- collect_days_length.
  unfold D. rewrite valid_intervals_run. apply inj_le, covered_days_length.
Qed.

Lemma rolling_at_least_stay ranges Y (s e : date) :
  In (s, e) ranges -> s <= e ->
  Z.min (e - s + 1) 365 <= maxDays (rollingWindow (computeStayAnalysis ranges Y)).
Proof.
  intros Hin Hv. rewrite rolling_of_run, maxDays_rolling_of_days.
  set (D := covered_days (valid_intervals (run_loop Y init_state 0 ranges))).
  pose proof (covered_days_sorted
                (valid_intervals (run_loop Y init_state 0 ranges))) as HD.
  fold D in HD.
  apply Z.le_trans with (count_in D s (Z.min e (s + 364))).
  - apply Z.le_trans with (Z.min e (s + 364) - s + 1); [lia|].
    apply count_in_full. intros d Hd. unfold D.
    rewrite valid_intervals_run, In_covered_days, covered_valid.
    exists s, e. repeat split; (assumption || lia).
  - apply scan_span_upper; [assumption|lia].
Qed.

Lemma rolling_maxDays_range ranges Y :
  0 <= maxDays (rollingWindow (computeStayAnalysis ranges Y)) <= 365.
Proof.
  rewrite rolling_of_run, maxDays_rolling_of_days.
  apply scan_bounds, covered_days_sorted.
Qed.

(** X10. The rolling maximum is at least the longest single stay, capped
    at 365. *)
Theorem X10_rolling_maximum_at_least_longest_stay
    (ranges : list (date * date)) (Y : Z) :
  let a := computeStayAnalysis ranges Y in
  Z.min (longestSingleStay a) 365 <= maxDays (rollingWindow a).
Proof.
  intros a. subst a.
  pose proof (rolling_maxDays_range ranges Y).
  destruct (longest_stay_attained ranges Y) as [E|(s & e & Hin & Hv & E)];
    [lia|].
  rewrite E. now apply rolling_at_least_stay.
Qed.

(** X11. For a single valid range the rolling maximum is its stay length,
    capped at 365. *)
Theorem X11_single_range_rolling_maximum (s e : date) (Y : Z) :
  s <= e ->
  maxDays (rollingWindow (computeStayAnalysis [(s, e)] Y))
  = Z.min (e - s + 1) 365.
Proof.
  intros Hv. apply Z.le_antisymm.
  - pose proof (rolling_maxDays_range [(s, e)] Y).
    rewrite rolling_of_run, maxDays_rolling_of_days in *.
    rewrite valid_intervals_run in *. cbn [filter] in *.
    rewrite (proj2 (is_valid_true s e) Hv) in *.
    destruct (scan_bounds _ (covered_days_sorted [(s, e)])) as (_ & B).
    pose proof (covered_days_length [(s, e)]) as L.
    apply inj_le in L. rewrite collect_days_length in L.
    cbn [map] in L. rewrite sum_cons in L. change (sum []) with 0 in L.
    unfold stay_length_of in L. cbn [fst snd] in L. lia.
  - apply rolling_at_least_stay; [now left|assumption].
Qed.

Lemma X11_single_range_rolling_maximum_witness :
  maxDays (rollingWindow (computeStayAnalysis
             [(mkdate 2023 6 1, mkdate 2024 12 31)] 2024))
  = Z.min (mkdate 2024 12 31 - mkdate 2023 6 1 + 1) 365.
Proof.
  exact (X11_single_range_rolling_maximum (mkdate 2023 6 1) (mkdate 2024 12 31)
           2024 ltac:(vm_compute; discriminate)).
Defined.

(* Leftmost and tight in terms of the entries of the list the scan runs
   on. *)
Lemma leftmost_tight_entries (ranges : list (date * date)) (Y : Z)
    (ws we : date) :
  let w := rollingWindow (computeStayAnalysis ranges Y) in
  let D := covered_days (valid_intervals (run_loop Y init_state 0 ranges)) in
  windowStart w = Some ws -> windowEnd w = Some we ->
  (forall d, In d D -> d < ws -> count_in D d (d + 364) < maxDays w)
  /\ (forall d, In d D -> we < d -> ws + 364 < d).
Proof.
  intros w D. subst w. rewrite rolling_of_run. fold D.
  pose proof (covered_days_sorted
                (valid_intervals (run_loop Y init_state 0 ranges))) as HD.
  fold D in HD.
  destruct (length D) eqn:En; [destruct D; [discriminate|discriminate]|].
  rewrite rolling_of_days_cons by lia. simpl.
  intros Hs He. inversion Hs as [Es]. inversion He as [Ee]. clear Hs He.
  destruct (scan_correct D HD) as (_ & Hup & _ & Hpos & Hfirst).
  destruct (Hpos ltac:(lia)) as (A & B & C).
  set (mi := max_i (scan D)) in *. set (mj := max_j (scan D)) in *.
  split.
  - intros d Hd Hlt. apply In_at in Hd. destruct Hd as (a & Ha & <-).
    assert (Hami : (a < mi)%nat).
    { destruct (Nat.lt_ge_cases a mi) as [|Hge]; [assumption|].
      pose proof (at_mono D HD mi a Hge Ha). lia. }
    destruct (span_indices D (at_ D a) (at_ D a + 364) HD)
      as [E|(i & j & Hij & Hi & Hj & Hk & E)].
    + rewrite E. lia.
    + assert (i = a).
      { pose proof (Hk a Ha ltac:(lia)).
        pose proof (strictly_sorted_at_inv D HD a i Ha ltac:(lia) Hi). lia. }
      subst i. rewrite E. apply Hfirst; [assumption|lia|lia].
  - intros d Hd Hlt. apply In_at in Hd. destruct Hd as (k & Hk & <-).
    destruct (Z.lt_ge_cases (ws + 364) (at_ D k)) as [|Hge]; [lia|].
    exfalso.
    assert (Hjk : (mj < k)%nat).
    { destruct (Nat.lt_ge_cases mj k) as [|Hle]; [assumption|].
      pose proof (at_mono D HD k mj Hle ltac:(lia)). lia. }
    pose proof (Hup mi k ltac:(lia) ltac:(lia)). lia.
Qed.

(** X12. The reported window is the leftmost densest one and its end is
    tight: every covered day (a day of some input range) before
    [windowStart] starts a 365-day span with strictly fewer covered days
    than [maxDays], and no covered day lies after [windowEnd] within 364
    days of [windowStart]. *)
Theorem X12_window_is_leftmost_and_tight (ranges : list (date * date)) (Y : Z)
    (ws we : date) :
  let w := rollingWindow (computeStayAnalysis ranges Y) in
  windowStart w = Some ws -> windowEnd w = Some we ->
  (forall d, (exists s e, In (s, e) ranges /\ s <= d <= e) -> d < ws ->
     covered_count ranges d (d + 364) < maxDays w)
  /\ (forall d, (exists s e, In (s, e) ranges /\ s <= d <= e) -> we < d ->
        ws + 364 < d).
Proof.
  intros w Hs He.
  destruct (leftmost_tight_entries ranges Y ws we Hs He) as [Hleft Htight].
  fold w in Hleft. split.
  - intros d Hd Hlt. rewrite (covered_count_run ranges Y).
    apply Hleft; [now apply In_run_days|assumption].
  - intros d Hd Hlt. apply Htight; [now apply In_run_days|assumption].
Qed.

Lemma X12_window_is_leftmost_and_tight_witness :
  let ranges := [(mkdate 2024 6 1, mkdate 2024 6 10);
                 (mkdate 2023 1 1, mkdate 2023 1 3)] in
  let w := rollingWindow (computeStayAnalysis ranges 2024) in
  covered_count ranges (mkdate 2023 1 1) (mkdate 2023 1 1 + 364) < maxDays w.
Proof.
  intros ranges w.
  refine (proj1 (X12_window_is_leftmost_and_tight ranges 2024
                   (mkdate 2024 6 1) (mkdate 2024 6 10) _ _)
                (mkdate 2023 1 1) _ _).
  - vm_compute. reflexivity.
  - vm_compute. reflexivity.
  - exists (mkdate 2023 1 1), (mkdate 2023 1 3).
    split; [right; left; reflexivity|vm_compute; split; discriminate].
  - vm_compute. reflexivity.
Defined.

(** ** The notices *)

Lemma no_valid_filter ranges :
  filter is_valid ranges = [] <-> forall s e, In (s, e) ranges -> e < s.
Proof.
  split.
  - intros H s e Hin. destruct (Z.lt_ge_cases e s) as [|Hv]; [assumption|].
    exfalso. assert (Hf : In (s, e) (filter is_valid ranges))
      by (apply filter_In; split; [assumption|now apply is_valid_true]).
    rewrite H in Hf. contradiction.
  - intros H. induction ranges as [|[s e] l IH]; simpl; [reflexivity|].
    rewrite (proj2 (is_valid_false s e) (H s e (or_introl eq_refl))).
    apply IH. intros s' e' Hin. apply H. now right.
Qed.

Lemma longest_zero_iff ranges Y :
  longestSingleStay (computeStayAnalysis ranges Y) = 0
  <-> forall s e, In (s, e) ranges -> e < s.
Proof.
  split.
  - intros E s e Hin. destruct (Z.lt_ge_cases e s) as [|Hv]; [assumption|].
    pose proof (longest_stay_upper ranges Y s e Hin Hv). lia.
  - intros Hall.
    destruct (longest_stay_attained ranges Y) as [E|(s & e & Hin & Hv & _)];
      [assumption|]. specialize (Hall s e Hin). lia.
Qed.

Lemma maxDays_zero_iff ranges Y :
  maxDays (rollingWindow (computeStayAnalysis ranges Y)) = 0
  <-> forall s e, In (s, e) ranges -> e < s.
Proof.
  split.
  - intros E s e Hin. destruct (Z.lt_ge_cases e s) as [|Hv]; [assumption|].
    pose proof (rolling_at_least_stay ranges Y s e Hin Hv). lia.
  - intros Hall. apply no_valid_filter in Hall.
    now rewrite rolling_window_of, Hall.
Qed.

Lemma covered_days_nonempty (s e : date) I :
  s <= e -> In (s, e) I -> covered_days I <> [].
Proof.
  intros Hv Hin E.
  assert (H : In s (covered_days I))
    by (apply In_covered_days; exists s, e; split; [assumption|lia]).
  rewrite E in H. contradiction.
Qed.

(** X13. The notice "No valid stay dates available" is never shown: the
    rolling section says "No valid entry/exit ranges" exactly when no range
    is valid, and otherwise shows the rolling maximum and both bounds of the
    window, with the custom limit compared against that maximum when the
    box is ticked. *)
Theorem X13_rolling_section_cases (ranges : list (date * date)) (Y : Z)
    (rolling_limit_enable : bool) (rolling_limit_days : Z) :
  let valid := valid_intervals (run_loop Y init_state 0 ranges) in
  let w := rollingWindow (computeStayAnalysis ranges Y) in
  let shown := rolling_section_of valid rolling_limit_enable rolling_limit_days in
  shown <> NoValidDates
  /\ (shown = NoValidRanges <-> forall s e, In (s, e) ranges -> e < s)
  /\ (forall m ws we c, shown = RollingResult m ws we c ->
        w = mkRolling m (Some ws) (Some we)
        /\ c = if rolling_limit_enable
               then Some (if maxDays w >? rolling_limit_days
                          then st_error else st_success)
               else None).
Proof.
  intros valid w shown. subst valid w shown.
  rewrite valid_intervals_run, rolling_window_of.
  rewrite <- no_valid_filter.
  unfold rolling_section_of, rolling_window.
  destruct (filter is_valid ranges) as [|[s e] rest] eqn:EF.
  - split; [discriminate|]. split; [tauto|]. discriminate.
  - assert (Hv : s <= e).
    { apply is_valid_true.
      assert (Hin : In (s, e) (filter is_valid ranges)) by (rewrite EF; now left).
      apply filter_In in Hin. tauto. }
    pose proof (covered_days_nonempty s e ((s, e) :: rest) Hv (or_introl eq_refl))
      as Hne.
    unfold covered_days in Hne.
    destruct (sorted (set (collect_days ((s, e) :: rest)))) as [|d D] eqn:ED;
      [congruence|].
    split; [discriminate|]. split; [split; discriminate|].
    intros m ws we c H. inversion H; subst. simpl.
    split; [reflexivity|].
    destruct rolling_limit_enable; [|reflexivity].
    now destruct (_ >? _).
Qed.

(** X14. The two automatic checks give their "no valid stays" notice
    together, and exactly when no range is valid. *)
Theorem X14_rule_notices_absent_together (ranges : list (date * date)) (Y : Z) :
  let a := computeStayAnalysis ranges Y in
  (short_stay_rule (longestSingleStay a) = st_info
   <-> forall s e, In (s, e) ranges -> e < s)
  /\ (rolling_rule (maxDays (rollingWindow a)) = st_info
      <-> forall s e, In (s, e) ranges -> e < s).
Proof.
  intros a. subst a. split.
  - rewrite <- (longest_zero_iff ranges Y). unfold short_stay_rule.
    destruct (Z.eqb_spec (longestSingleStay (computeStayAnalysis ranges Y)) 0).
    + split; [intros _; assumption|reflexivity].
    + destruct (_ >? _); split; (discriminate || contradiction).
  - rewrite <- (maxDays_zero_iff ranges Y). unfold rolling_rule.
    destruct (Z.eqb_spec (maxDays (rollingWindow (computeStayAnalysis ranges Y))) 0).
    + split; [intros _; assumption|reflexivity].
    + destruct (_ >? _); split; (discriminate || contradiction).
Qed.

(** X15. The 90-day notices say what is the case: the success notice is
    shown exactly when some range is valid and every valid range is at most
    90 days long, the error notice exactly when some valid range is longer
    than 90 days. *)
Theorem X15_short_stay_rule_sound (ranges : list (date * date)) (Y : Z) :
  let v := short_stay_rule (longestSingleStay (computeStayAnalysis ranges Y)) in
  (v = st_success <->
     (exists s e, In (s, e) ranges /\ s <= e)
     /\ forall s e, In (s, e) ranges -> s <= e -> e - s + 1 <= 90)
  /\ (v = st_error <->
        exists s e, In (s, e) ranges /\ s <= e /\ 90 < e - s + 1).
Proof.
  intros v. subst v.
  pose proof (longest_stay_upper ranges Y) as Hup.
  pose proof (longest_stay_attained ranges Y) as Hatt.
  pose proof (longest_zero_iff ranges Y) as Hz.
  unfold short_stay_rule.
  set (L := longestSingleStay (computeStayAnalysis ranges Y)) in *.
  destruct (Z.eqb_spec L 0) as [E0|N0].
  - split; split; try discriminate.
    + intros [(s & e & Hin & Hv) _].
      pose proof (proj1 Hz E0 s e Hin). lia.
    + intros (s & e & Hin & Hv & _). pose proof (proj1 Hz E0 s e Hin). lia.
  - destruct Hatt as [E|(s0 & e0 & Hin0 & Hv0 & E)]; [contradiction|].
    rewrite Z.gtb_ltb. destruct (Z.ltb_spec 90 L) as [Hgt|Hle].
    + split; split; try discriminate; try reflexivity.
      * intros [_ Hall]. specialize (Hall s0 e0 Hin0 Hv0). lia.
      * intros _. exists s0, e0. repeat split; (assumption || lia).
    + split; split; try discriminate; try reflexivity.
      * intros _. split; [eauto|]. intros s e Hin Hv.
        specialize (Hup s e Hin Hv). lia.
      * intros (s & e & Hin & Hv & Hlong). specialize (Hup s e Hin Hv). lia.
Qed.

Lemma rolling_span_upper ranges Y lo hi :
  hi - lo <= 364 ->
  count_in (covered_days (valid_intervals (run_loop Y init_state 0 ranges))) lo hi
  <= maxDays (rollingWindow (computeStayAnalysis ranges Y)).
Proof.
  intros H. rewrite rolling_of_run, maxDays_rolling_of_days.
  apply scan_span_upper; [apply covered_days_sorted|assumption].
Qed.

Lemma rolling_span_attained ranges Y :
  let D := covered_days (valid_intervals (run_loop Y init_state 0 ranges)) in
  let w := rollingWindow (computeStayAnalysis ranges Y) in
  maxDays w = 0 \/ exists lo, In lo D /\ maxDays w = count_in D lo (lo + 364).
Proof.
  intros D w. subst w.
  pose proof (rolling_span_upper ranges Y) as Hspan. fold D in Hspan.
  rewrite rolling_of_run in *. fold D in Hspan |- *.
  pose proof (covered_days_sorted
                (valid_intervals (run_loop Y init_state 0 ranges))) as HD.
  fold D in HD. rewrite maxDays_rolling_of_days in *.
  destruct (scan_correct D HD) as (_ & _ & H0 & Hpos & _).
  destruct (length D) eqn:En; [left; now apply H0|right].
  destruct (Hpos ltac:(lia)) as (A & B & C).
  exists (at_ D (max_i (scan D))). split.
  - apply In_at. exists (max_i (scan D)). split; [lia|reflexivity].
  - apply Z.le_antisymm; [|apply Hspan; lia].
    rewrite C, <- (count_window D HD _ _ (proj1 A)) by lia.
    apply count_in_widen; lia.
Qed.

(* The 180-day rule in terms of the entries of the list the scan runs
   on. *)
Lemma rolling_rule_entries (ranges : list (date * date)) (Y : Z) :
  let D := covered_days (valid_intervals (run_loop Y init_state 0 ranges)) in
  let v := rolling_rule (maxDays (rollingWindow (computeStayAnalysis ranges Y))) in
  (v = st_error <-> exists lo, 180 < count_in D lo (lo + 364))
  /\ (v = st_success <->
        (exists s e, In (s, e) ranges /\ s <= e)
        /\ forall lo, count_in D lo (lo + 364) <= 180).
Proof.
  intros D v. subst v.
  pose proof (rolling_span_upper ranges Y) as Hup. fold D in Hup.
  pose proof (rolling_span_attained ranges Y) as Hatt. cbv zeta in Hatt.
  fold D in Hatt.
  pose proof (maxDays_zero_iff ranges Y) as Hz.
  unfold rolling_rule.
  set (m := maxDays (rollingWindow (computeStayAnalysis ranges Y))) in *.
  assert (Hspan : forall lo, count_in D lo (lo + 364) <= m)
    by (intros lo; apply Hup; lia).
  destruct (Z.eqb_spec m 0) as [E0|N0].
  - split; split; try discriminate.
    + intros (lo & Hlo). specialize (Hspan lo). lia.
    + intros [(s & e & Hin & Hv) _]. pose proof (proj1 Hz E0 s e Hin). lia.
  - destruct Hatt as [E|(lo0 & Hin0 & E)]; [contradiction|].
    assert (Hvalid : exists s e, In (s, e) ranges /\ s <= e).
    { unfold D in Hin0.
      rewrite valid_intervals_run, In_covered_days, covered_valid in Hin0.
      destruct Hin0 as (s & e & Hin & Hv & _). eauto. }
    rewrite Z.gtb_ltb. destruct (Z.ltb_spec 180 m) as [Hgt|Hle].
    + split; split; try discriminate; try reflexivity.
      * intros _. exists lo0. lia.
      * intros [_ Hall]. specialize (Hall lo0). lia.
    + split; split; try discriminate; try reflexivity.
      * intros (lo & Hlo). specialize (Hspan lo). lia.
      * intros _. split; [assumption|]. intros lo. specialize (Hspan lo). lia.
Qed.

(** X16. The 180-day notices say what is the case: the error notice is
    shown exactly when some span of 365 consecutive calendar days holds more
    than 180 covered days (days of some input range, each counted once), the
    success notice exactly when some range is valid and no such span holds
    more than 180. *)
Theorem X16_rolling_rule_sound (ranges : list (date * date)) (Y : Z) :
  let v := rolling_rule (maxDays (rollingWindow (computeStayAnalysis ranges Y))) in
  (v = st_error <-> exists lo, 180 < covered_count ranges lo (lo + 364))
  /\ (v = st_success <->
        (exists s e, In (s, e) ranges /\ s <= e)
        /\ forall lo, covered_count ranges lo (lo + 364) <= 180).
Proof.
  intros v. destruct (rolling_rule_entries ranges Y) as [He Hs].
  fold v in He, Hs. split.
  - rewrite He. split; intros (lo & H); exists lo;
      [rewrite (covered_count_run ranges Y)
      |rewrite <- (covered_count_run ranges Y)]; exact H.
  - rewrite Hs. split; intros [Hv Hall]; (split; [exact Hv|]); intros lo;
      [rewrite (covered_count_run ranges Y)
      |rewrite <- (covered_count_run ranges Y)]; apply Hall.
Qed.

(** X17. A single stay of more than 180 days always triggers the 180-day
    error notice. *)
Theorem X17_long_stay_breaks_rolling_rule (ranges : list (date * date))
    (Y : Z) :
  let a := computeStayAnalysis ranges Y in
  180 < longestSingleStay a ->
  rolling_rule (maxDays (rollingWindow a)) = st_error.
Proof.
  intros a H. subst a.
  destruct (longest_stay_attained ranges Y) as [E|(s & e & Hin & Hv & E)];
    [lia|].
  pose proof (rolling_at_least_stay ranges Y s e Hin Hv) as Hlow.
  unfold rolling_rule.
  set (m := maxDays (rollingWindow (computeStayAnalysis ranges Y))) in *.
  destruct (Z.eqb_spec m 0); [lia|].
  rewrite Z.gtb_ltb. destruct (Z.ltb_spec 180 m); [reflexivity|lia].
Qed.

Lemma X17_long_stay_breaks_rolling_rule_witness :
  rolling_rule (maxDays (rollingWindow (computeStayAnalysis
                  [(mkdate 2024 1 1, mkdate 2024 7 15)] 2024))) = st_error.
Proof.
  exact (X17_long_stay_breaks_rolling_rule
           [(mkdate 2024 1 1, mkdate 2024 7 15)] 2024
           ltac:(vm_compute; reflexivity)).
Defined.

Lemma rolling_section_notice I en lim :
  custom_limit_notice (rolling_section_of I en lim) = None
  \/ custom_limit_notice (rolling_section_of I en lim)
     = Some (if maxDays (rolling_window I) >? lim then st_error else st_success).
Proof.
  unfold rolling_section_of, rolling_window.
  destruct I as [|r I]; [now left|].
  destruct (sorted (set (collect_days (r :: I)))) as [|d D]; [now left|].
  destruct en; [right|left; reflexivity].
  simpl. now destruct (_ >? _).
Qed.

(** X18. A custom rolling limit of 365 days or more is never reported as
    exceeded. *)
Theorem X18_rolling_limit_365_never_exceeded (ranges : list (date * date))
    (Y : Z) (rolling_limit_enable : bool) (rolling_limit_days : Z) :
  365 <= rolling_limit_days ->
  let shown := rolling_section_of (valid_intervals (run_loop Y init_state 0 ranges))
                 rolling_limit_enable rolling_limit_days in
  custom_limit_notice shown = None
  \/ custom_limit_notice shown = Some st_success.
Proof.
  intros H shown. subst shown.
  destruct (rolling_section_notice
              (valid_intervals (run_loop Y init_state 0 ranges))
              rolling_limit_enable rolling_limit_days) as [E|E];
    [now left|right].
  rewrite E. rewrite valid_intervals_run, <- (rolling_window_of ranges Y).
  pose proof (rolling_maxDays_range ranges Y).
  rewrite Z.gtb_ltb.
  destruct (Z.ltb_spec rolling_limit_days
              (maxDays (rollingWindow (computeStayAnalysis ranges Y))));
    [lia|reflexivity].
Qed.

Lemma X18_rolling_limit_365_never_exceeded_witness :
  let shown := rolling_section_of
                 (valid_intervals (run_loop 2024 init_state 0
                    [(mkdate 2023 1 1, mkdate 2024 12 31)]))
                 true 365 in
  custom_limit_notice shown = None
  \/ custom_limit_notice shown = Some st_success.
Proof.
  exact (X18_rolling_limit_365_never_exceeded
           [(mkdate 2023 1 1, mkdate 2024 12 31)] 2024 true 365
           ltac:(lia)).
Defined.

(** X19. When the annual limit check reports success, the number of
    distinct covered days of the target year is within the limit. *)
Theorem X19_annual_check_success_is_safe (ranges : list (date * date)) (Y : Z)
    (limit_days : Z) :
  let a := computeStayAnalysis ranges Y in
  let D := covered_days (valid_intervals (run_loop Y init_state 0 ranges)) in
  annual_threshold_check true limit_days (totalDaysInYear a) = Some st_success ->
  count_in D (year_start Y) (year_end Y) <= limit_days.
Proof.
  intros a D. subst a D. unfold annual_threshold_check.
  pose proof (distinct_days_le_total ranges Y).
  rewrite Z.gtb_ltb.
  destruct (Z.ltb_spec limit_days (totalDaysInYear (computeStayAnalysis ranges Y)));
    [discriminate|]. intros _. lia.
Qed.

Lemma X19_annual_check_success_is_safe_witness :
  let ranges := [(mkdate 2024 1 1, mkdate 2024 3 31);
                 (mkdate 2024 3 1, mkdate 2024 4 30)] in
  count_in (covered_days (valid_intervals (run_loop 2024 init_state 0 ranges)))
           (year_start 2024) (year_end 2024) <= 180.
Proof.
  intros ranges.
  exact (X19_annual_check_success_is_safe ranges 2024 180
           ltac:(vm_compute; reflexivity)).
Defined.

(** X20. The target year matters to the annual column only: with another
    year the labels, the ranges and the stay lengths of the rows, the
    reported errors, the longest single stay and the rolling window are the
    same. *)
Theorem X20_target_year_changes_annual_days_only (ranges : list (date * date))
    (Y Y' : Z) :
  let a := computeStayAnalysis ranges Y in
  let a' := computeStayAnalysis ranges Y' in
  map Range (perRange a) = map Range (perRange a')
  /\ map Original_Stay (perRange a) = map Original_Stay (perRange a')
  /\ map Stay_Length (perRange a) = map Stay_Length (perRange a')
  /\ errors a = errors a'
  /\ longestSingleStay a = longestSingleStay a'
  /\ rollingWindow a = rollingWindow a'.
Proof.
  intros a a'. subst a a'. rewrite !analysis_unfold. cbn [perRange errors
    longestSingleStay rollingWindow].
  assert (R : forall i, map Range (rows_from Y i ranges)
                        = map Range (rows_from Y' i ranges)
                        /\ map Original_Stay (rows_from Y i ranges)
                           = map Original_Stay (rows_from Y' i ranges)).
  { induction ranges as [|r l IH]; intros i; simpl; [split; reflexivity|].
    destruct (IH (i + 1)) as [E1 E2]. rewrite E1, E2.
    unfold row_of. destruct (is_valid r); split; reflexivity. }
  destruct (R 0) as [E1 E2].
  rewrite !rows_from_stay. repeat split; assumption.
Qed.

(** X21. A valid range's annual days are 0 exactly when the range has no
    day in the target year, and equal its stay length exactly when the range
    lies inside the year. *)
Theorem X21_annual_days_zero_or_full (ranges : list (date * date)) (Y : Z)
    (k : nat) (s e : date) :
  nth_error ranges k = Some (s, e) -> s <= e ->
  exists rw, nth_error (perRange (computeStayAnalysis ranges Y)) k = Some rw
    /\ (Days_in_year rw = 0 <-> e < year_start Y \/ year_end Y < s)
    /\ (Days_in_year rw = Stay_Length rw
        <-> year_start Y <= s /\ e <= year_end Y).
Proof.
  intros Hk Hv. rewrite analysis_unfold. cbn [perRange].
  exists (row_of Y (0 + Z.of_nat k) (s, e)).
  split; [now apply rows_from_nth|].
  unfold row_of. rewrite (proj2 (is_valid_true s e) Hv).
  cbn [Days_in_year Stay_Length fst snd]. rewrite annual_contribution_clip.
  unfold stay_length_of. cbn [fst snd].
  pose proof (year_length Y). destruct (is_leap Y); lia.
Qed.

Lemma X21_annual_days_zero_or_full_witness :
  let r := (mkdate 2023 12 20, mkdate 2023 12 31) in
  exists rw, nth_error (perRange (computeStayAnalysis [r] 2024)) 0 = Some rw
    /\ (Days_in_year rw = 0
        <-> snd r < year_start 2024 \/ year_end 2024 < fst r)
    /\ (Days_in_year rw = Stay_Length rw
        <-> year_start 2024 <= fst r /\ snd r <= year_end 2024).
Proof.
  intros r.
  exact (X21_annual_days_zero_or_full [r] 2024 0 (fst r) (snd r) eq_refl
           ltac:(vm_compute; discriminate)).
Defined.
